(** * RecipeGenerator: the ingredient editor and the conversation session

    A shallow embedding of [src/app/page.tsx].  The component owns four
    [useState] cells (the ingredient rows, the chat transcript, the loading
    flag and the follow-up input text) and two asynchronous handlers that post
    to the generative-language endpoint.

    - JavaScript strings are kept in their UTF-8 encoding, as Rocq [string]s.
    - A handler reads the cells of the render it was created in and writes
      cells with the setters; the part of an [async] handler after its
      [await] is a continuation that carries the values it closed over.
    - [axios.post] is the environment: it either rejects or resolves with a
      response body, an arbitrary JavaScript value. *)

From Stdlib Require Import ZArith Lia Ascii.
From stdpp Require Import base list strings pretty.

Local Set Warnings "-register-all".

(** ** JavaScript values the component handles *)
Module JS.

(** *** [String.prototype.trim] *)

Definition bytes (s : string) : list N :=
  N_of_ascii <$> String.list_ascii_of_string s.

Definition of_bytes (l : list N) : string :=
  String.string_of_list_ascii (ascii_of_N <$> l).

(** ECMAScript [WhiteSpace] and [LineTerminator] code points, UTF-8 encoded:
    TAB, LF, VT, FF, CR, SP, U+00A0, U+1680, U+2000..U+200A, U+2028,
    U+2029, U+202F, U+205F, U+3000 and U+FEFF. *)
Definition StrWhiteSpaceChar : list (list N) :=
  [ [9]; [10]; [11]; [12]; [13]; [32];
    [194; 160];
    [225; 154; 128];
    [226; 128; 128]; [226; 128; 129]; [226; 128; 130]; [226; 128; 131];
    [226; 128; 132]; [226; 128; 133]; [226; 128; 134]; [226; 128; 135];
    [226; 128; 136]; [226; 128; 137]; [226; 128; 138];
    [226; 128; 168]; [226; 128; 169]; [226; 128; 175];
    [226; 129; 159];
    [227; 128; 128];
    [239; 187; 191] ]%N.

Fixpoint dropPrefix (p l : list N) : option (list N) :=
  match p, l with
  | [], _ => Some l
  | a :: p', b :: l' => if (a =? b)%N then dropPrefix p' l' else None
  | _ :: _, [] => None
  end.

Fixpoint dropOneOf (table : list (list N)) (l : list N) : option (list N) :=
  match table with
  | [] => None
  | p :: table' =>
      match dropPrefix p l with
      | Some l' => Some l'
      | None => dropOneOf table' l
      end
  end.

Fixpoint dropLeading (table : list (list N)) (fuel : nat) (l : list N)
  : list N :=
  match fuel with
  | O => l
  | S fuel' =>
      match dropOneOf table l with
      | Some l' => dropLeading table fuel' l'
      | None => l
      end
  end.

Definition trimStart (l : list N) : list N :=
  dropLeading StrWhiteSpaceChar (length l) l.

Definition trimEnd (l : list N) : list N :=
  reverse (dropLeading (reverse <$> StrWhiteSpaceChar) (length l) (reverse l)).

Definition trim (s : string) : string :=
  of_bytes (trimEnd (trimStart (bytes s))).

(** *** [Array.prototype.join] on an array of strings *)
Fixpoint join (sep : string) (l : list string) : string :=
  match l with
  | [] => ""
  | [x] => x
  | x :: xs => x +:+ sep +:+ join sep xs
  end.

(** *** Values

    What [response.data] can be.  A number is carried by its
    [Number::toString] rendering, the only thing this component observes of
    it; an object by its own properties, the first binding of a key being
    the one in force. *)
Inductive value : Type :=
| Undefined
| Null
| Bool (b : bool)
| Number (rendering : string)
| Str (s : string)
| Array (elements : list value)
| Object (properties : list (string * value)).

Fixpoint assoc (k : string) (ps : list (string * value)) : value :=
  match ps with
  | [] => Undefined
  | (k', v) :: ps' => if decide (k = k') then v else assoc k ps'
  end.

(** [v.k] for one of the keys this component reads ([candidates],
    [content], [parts], [text]): a [TypeError] ([None]) on [undefined] and
    [null], [undefined] on every value without such a property. *)
Definition get (v : value) (k : string) : option value :=
  match v with
  | Undefined | Null => None
  | Object ps => Some (assoc k ps)
  | Bool _ | Number _ | Str _ | Array _ => Some Undefined
  end.

(** The first character of a UTF-8 string: a lead byte and the
    continuation bytes (0x80..0xBF) after it. *)
Fixpoint continuation (s : string) : string :=
  match s with
  | String c s' =>
      if ((128 <=? N_of_ascii c) && (N_of_ascii c <? 192))%N
      then String c (continuation s') else ""
  | "" => ""
  end.

(** [v[0]].  Of a non-empty string it is the first character (for a
    character outside the basic plane JavaScript gives its first surrogate:
    a string again, with no property this component reads). *)
Definition get0 (v : value) : option value :=
  match v with
  | Undefined | Null => None
  | Array l => Some (default Undefined (head l))
  | Object ps => Some (assoc "0" ps)
  | Str (String c s) => Some (Str (String c (continuation s)))
  | Str "" | Bool _ | Number _ => Some Undefined
  end.

(** [ToString].  An array renders as its elements joined with commas.  An
    object renders as [[object Object]] through [Object.prototype.toString],
    unless it has a property [toString] of its own: a parsed body holds no
    function, so that property is not callable, [valueOf] returns the object
    itself and the conversion raises a [TypeError]. *)
Fixpoint ToString (v : value) : option string :=
  match v with
  | Undefined => Some "undefined"
  | Null => Some "null"
  | Bool true => Some "true"
  | Bool false => Some "false"
  | Number r => Some r
  | Str s => Some s
  | Array l =>
      join ","
        <$> mapM (λ x, match x with
                       | Undefined | Null => Some ""
                       | _ => ToString x
                       end) l
  | Object ps =>
      if decide ("toString" ∈ ps.*1) then None else Some "[object Object]"
  end.

(** What [join] makes of one element: nothing of [undefined] and [null]. *)
Definition joinElement (v : value) : option string :=
  match v with
  | Undefined | Null => Some ""
  | _ => ToString v
  end.

(** [v.map(f).join(sep)]: only an array has a callable [map]; anything else
    raises, and so does a callback or a conversion that raises. *)
Definition map_join (v : value) (f : value → option value) (sep : string)
  : option string :=
  match v with
  | Array l => l' ← mapM f l; join sep <$> mapM joinElement l'
  | _ => None
  end.

End JS.

(** ** Data model *)

Record Ingredient : Type := mkIngredient {
  id : string;
  name : string;
  amount : string;
}.

Inductive Role : Type := user | assistant.

Record ChatMessage : Type := mkChatMessage {
  role : Role;
  text : string;
  isIngredientList : option bool;   (* an optional property: [None] when absent *)
}.

Global Instance Role_eq_dec : EqDecision Role.
Proof. solve_decision. Defined.

Global Instance Ingredient_eq_dec : EqDecision Ingredient.
Proof. solve_decision. Defined.

Global Instance ChatMessage_eq_dec : EqDecision ChatMessage.
Proof. solve_decision. Defined.

Definition LF : string := String (ascii_of_N 10) "".

Definition BASIC_SEASONINGS : string :=
  JS.join LF
    [ "";
      "調味料・香辛料は以下のものを適宜使用可能とします：";
      "- 基本調味料：塩、砂糖、醤油、味噌、酢、みりん、料理酒";
      "- 油類：サラダ油、ごま油、オリーブオイル";
      "- 薬味・香辛料：胡椒、からし、わさび、生姜、にんにく";
      "- 調味料：マヨネーズ、ケチャップ、ソース、めんつゆ、だし、ポン酢、ドレッシング";
      "- 中華調味料：豆板醤、甜麺醤";
      "" ].

(** The four [useState] cells of the component. *)
Record State : Type := mkState {
  ingredients : list Ingredient;
  chatHistory : list ChatMessage;
  isLoading : bool;
  inputText : string;
}.

Definition initialIngredients : list Ingredient :=
  [ {| id := "1"; name := ""; amount := "" |};
    {| id := "2"; name := ""; amount := "" |};
    {| id := "3"; name := ""; amount := "" |} ].

Definition initialState : State :=
  {| ingredients := initialIngredients;
     chatHistory := [];
     isLoading := false;
     inputText := "" |}.

Definition setIngredients (v : list Ingredient) (s : State) : State :=
  {| ingredients := v; chatHistory := chatHistory s;
     isLoading := isLoading s; inputText := inputText s |}.

Definition setChatHistory (v : list ChatMessage) (s : State) : State :=
  {| ingredients := ingredients s; chatHistory := v;
     isLoading := isLoading s; inputText := inputText s |}.

Definition setIsLoading (v : bool) (s : State) : State :=
  {| ingredients := ingredients s; chatHistory := chatHistory s;
     isLoading := v; inputText := inputText s |}.

Definition setInputText (v : string) (s : State) : State :=
  {| ingredients := ingredients s; chatHistory := chatHistory s;
     isLoading := isLoading s; inputText := v |}.

(** ** The ingredient editor

    A synchronous handler runs in the closure of the latest render, so the
    cells it reads are the current ones; it writes one cell.  [now] is what
    [Date.now()] returns when the handler runs. *)

Definition addIngredient (now : Z) (s : State) : State :=
  let newId := pretty now in
  setIngredients
    (ingredients s ++ [ {| id := newId; name := ""; amount := "" |} ]) s.

Definition removeIngredient (i : string) (s : State) : State :=
  setIngredients (filter (λ ing, id ing ≠ i) (ingredients s)) s.

Inductive Field : Type := field_name | field_amount.

(** [{ ...ing, [field]: value }] *)
Definition withField (ing : Ingredient) (field : Field) (value : string)
  : Ingredient :=
  match field with
  | field_name => {| id := id ing; name := value; amount := amount ing |}
  | field_amount => {| id := id ing; name := name ing; amount := value |}
  end.

Definition updateIngredient (i : string) (field : Field) (value : string)
  (s : State) : State :=
  setIngredients
    ((λ ing, if decide (id ing = i) then withField ing field value else ing)
       <$> ingredients s) s.

Definition resetChat (s : State) : State :=
  setIsLoading false (setInputText "" (setChatHistory [] s)).

(** ** Requests, and the world the asynchronous handlers run in *)

(** One entry of the request body's [contents]. *)
Record Content : Type := mkContent {
  content_role : option Role;      (* absent in the single-turn request *)
  parts : list string;             (* the [text] of each part *)
}.

(** What an [async] handler still has to do when its [await] is over,
    together with the values it closed over. *)
Inductive Continuation : Type :=
| generateRecipe_resume (ingredientsList : string)
| sendMessage_resume (newHistory : list ChatMessage).

(** A call of [axios.post] that has not settled yet. *)
Record Call : Type := mkCall {
  contents : list Content;
  awaiting : Continuation;
}.

(** How a call settles: the promise rejects (no connection, a status outside
    2xx), or resolves with [response.data]. *)
Inductive Outcome : Type :=
| Rejected
| Resolved (data : JS.value).

Inductive Exception : Type := AxiosError | TypeError.

Record World : Type := mkWorld {
  cells : State;
  network : list Call;                      (* outstanding requests, oldest first *)
  console : list (string * Exception);      (* what [console.error] printed *)
}.

Definition mount : World :=
  {| cells := initialState; network := []; console := [] |}.

(** Computations that read and write the world and may throw. *)
Definition M (A : Type) : Type := World → (Exception + A) * World.

Global Instance M_ret : MRet M := λ A a w, (inr a, w).

Global Instance M_bind : MBind M := λ A B f m w,
  match m w with
  | (inr a, w') => f a w'
  | (inl e, w') => (inl e, w')
  end.

Definition throw {A} (e : Exception) : M A := λ w, (inl e, w).

Definition write (f : State → State) : M unit := λ w,
  (inr tt, {| cells := f (cells w); network := network w; console := console w |}).

Definition axios_post (body : list Content) (k : Continuation) : M unit := λ w,
  (inr tt, {| cells := cells w;
              network := network w ++ [ {| contents := body; awaiting := k |} ];
              console := console w |}).

Definition console_error (message : string) (error : Exception) : M unit := λ w,
  (inr tt, {| cells := cells w; network := network w;
              console := console w ++ [ (message, error) ] |}).

(** [try { body } catch (error) { handler } finally { finalizer }] *)
Definition try_catch_finally {A} (body : M A) (handler : Exception → M A)
  (finalizer : M unit) : M A := λ w,
  let '(r, w1) := body w in
  let '(r', w2) := match r with
                   | inl error => handler error w1
                   | inr a => (inr a, w1)
                   end in
  match finalizer w2 with
  | (inl e, w3) => (inl e, w3)
  | (inr _, w3) => (r', w3)
  end.

(** [await] of a settled call: its data, or the rejection rethrown. *)
Definition await (r : Outcome) : M JS.value :=
  match r with
  | Rejected => throw AxiosError
  | Resolved data => mret data
  end.

(** A property read that raises [TypeError] where JavaScript does. *)
Definition orTypeError {A} (x : option A) : M A :=
  match x with
  | Some a => mret a
  | None => throw TypeError
  end.

(** ** The conversation session *)

(** [ing => ing.name.trim() !== ""], the filter of lines 65 and 206. *)
Definition nonblank (ing : Ingredient) : Prop := JS.trim (name ing) ≠ "".

Global Instance nonblank_dec (ing : Ingredient) : Decision (nonblank ing).
Proof. unfold nonblank. apply _. Defined.

(** [ingredients.filter(...).map(...).join("、")], lines 64-67. *)
Definition ingredientsList (ingredients : list Ingredient) : string :=
  JS.join "、"
    ((λ ing, name ing +:+ " " +:+ amount ing +:+ "g")
       <$> filter nonblank ingredients).

Definition prompt (ingredientsList : string) : string :=
  JS.join LF
    [ "以下の食材（グラム単位）を使用した料理のレシピを提案してください：";
      ingredientsList;
      "";
      "注意事項：";
      "- できる限り入力された食材のみを使用してレシピを考えてください";
      "- 全ての食材を使い切る必要はありませんが、できるだけ多くの食材を活用してください";
      "- 余った食材は他の料理や保存可能です";
      "";
      BASIC_SEASONINGS;
      "";
      "以下の形式で出力してください：";
      "1. 料理名";
      "2. 調理時間";
      "3. 実際に使用する食材と量";
      "4. 手順";
      "5. コツやポイント" ].

(** [response.data.candidates[0].content.parts.map(part => part.text).join("\n")],
    lines 100-101 and again 139-140. *)
Definition responseContent (data : JS.value) : option JS.value :=
  candidates ← JS.get data "candidates";
  candidate ← JS.get0 candidates;
  JS.get candidate "content".

Definition responseText (data : JS.value) : option string :=
  responseContent ← responseContent data;
  responseParts ← JS.get responseContent "parts";
  JS.map_join responseParts (λ part, JS.get part "text") LF.

(** [generateRecipe] up to its [await]. *)
Definition generateRecipe (render : State) : M unit :=
  if decide (length (ingredients render) = 0) then mret tt else
  let ingredientsList := ingredientsList (ingredients render) in
  let prompt := prompt ingredientsList in
  write (setIsLoading true) ;;
  axios_post [ {| content_role := None; parts := [ prompt ] |} ]
    (generateRecipe_resume ingredientsList).

(** [sendMessage] up to its [await]. *)
Definition sendMessage (render : State) : M unit :=
  if decide (JS.trim (inputText render) = "") then mret tt else
  write (setIsLoading true) ;;
  let newHistory :=
    chatHistory render
      ++ [ {| role := user; text := inputText render;
              isIngredientList := None |} ] in
  axios_post
    ((λ msg, {| content_role := Some (role msg); parts := [ text msg ] |})
       <$> newHistory)
    (sendMessage_resume newHistory).

(** The rest of either handler, once its call has settled. *)
Definition resume (k : Continuation) (r : Outcome) : M unit :=
  match k with
  | generateRecipe_resume ingredientsList =>
      try_catch_finally
        (data ← await r;
         recipe ← orTypeError (responseText data);
         write (setChatHistory
                  [ {| role := user; text := "食材：" +:+ ingredientsList;
                       isIngredientList := Some true |};
                    {| role := assistant; text := recipe;
                       isIngredientList := None |} ]))
        (λ error, console_error "レシピの生成中にエラーが発生しました:" error)
        (write (setIsLoading false))
  | sendMessage_resume newHistory =>
      try_catch_finally
        (data ← await r;
         responseParts ← orTypeError (responseText data);
         write (setChatHistory
                  (newHistory
                     ++ [ {| role := assistant; text := responseParts;
                             isIngredientList := None |} ])) ;;
         write (setInputText ""))
        (λ error, console_error "応答の生成中にエラーが発生しました:" error)
        (write (setIsLoading false))
  end.

(** ** The rendered controls and the events of the page *)

(** [disabled] of the submit button, line 206. *)
Definition generateDisabled (render : State) : bool :=
  isLoading render
  || bool_decide (length (filter nonblank (ingredients render)) = 0).

(** [disabled] of the send button, line 255. *)
Definition sendDisabled (render : State) : bool :=
  isLoading render.

Inductive Event : Type :=
| ClickAdd (now : Z)
| ChangeIngredient (i : string) (field : Field) (value : string)
| ClickRemove (i : string)
| ClickGenerate
| ClickReset
| ChangeInput (value : string)
| KeyDown (key : string) (shiftKey : bool)
| ClickSend
| Settle (n : nat) (r : Outcome).   (* the [n]-th outstanding call settles *)

Definition withNetwork (net : list Call) (w : World) : World :=
  {| cells := cells w; network := net; console := console w |}.

(** The [n]-th outstanding call settles and its handler resumes. *)
Definition settle (n : nat) (r : Outcome) : M unit := λ w,
  match network w !! n with
  | Some call => resume (awaiting call) r (withNetwork (delete n (network w)) w)
  | None => (inr tt, w)
  end.

(** What an event runs, in the closure of the render it arrives in.  A
    disabled button delivers no click. *)
Definition handle (e : Event) (render : State) : M unit :=
  match e with
  | ClickAdd now => write (addIngredient now)
  | ChangeIngredient i field value => write (updateIngredient i field value)
  | ClickRemove i => write (removeIngredient i)
  | ClickGenerate =>
      if generateDisabled render then mret tt else generateRecipe render
  | ClickReset => write resetChat
  | ChangeInput value => write (setInputText value)
  | KeyDown key shiftKey =>
      if bool_decide (key = "Enter") && negb shiftKey
      then sendMessage render else mret tt
  | ClickSend =>
      if sendDisabled render then mret tt else sendMessage render
  | Settle n r => settle n r
  end.

Definition dispatch (e : Event) : M unit := λ w, handle e (cells w) w.

Definition next (w : World) (e : Event) : World := (dispatch e w).2.

Definition run (events : list Event) (w : World) : World :=
  foldl next w events.

(** One handler run from cells [s] with nothing else going on, its call (if it
    made one) settling as [r] before any other event. *)
Definition alone (s : State) : World :=
  {| cells := s; network := []; console := [] |}.

Definition completed (handler : State → M unit) (r : Outcome) (s : State)
  : (Exception + unit) * World :=
  let '(x, w) := handler s (alone s) in
  match x, network w with
  | inr _, call :: rest => resume (awaiting call) r (withNetwork rest w)
  | _, _ => (x, w)
  end.

Definition after (handler : State → M unit) (r : Outcome) (s : State) : State :=
  cells (completed handler r s).2.

(** The outcomes that take a handler to its [catch]. *)
Definition failed (r : Outcome) : Prop :=
  match r with
  | Rejected => True
  | Resolved data => responseText data = None
  end.

(** Bodies off the expected shape: no [candidates], an empty [candidates]
    array, a first candidate without [content]. *)
Inductive deviates (data : JS.value) : Prop :=
| missing_candidates :
    JS.get data "candidates" = Some JS.Undefined → deviates data
| empty_candidates :
    JS.get data "candidates" = Some (JS.Array []) → deviates data
| absent_content candidates candidate :
    JS.get data "candidates" = Some candidates →
    JS.get0 candidates = Some candidate →
    JS.get candidate "content" = Some JS.Undefined →
    deviates data.

(** The transcript [l] is empty or starts with a message satisfying [P]. *)
Definition startsWith (P : ChatMessage → Prop) (l : list ChatMessage) : Prop :=
  match l with
  | [] => True
  | m :: _ => P m
  end.

Definition isUser (m : ChatMessage) : Prop := role m = user.

Definition isIngredientMessage (m : ChatMessage) : Prop :=
  role m = user ∧ isIngredientList m = Some true.

(** The events that send a follow-up when they arrive in [render]: Enter
    without Shift, or a click on the send button while it is enabled, with an
    input that [sendMessage] does not return on (line 115). *)
Definition sends (render : State) (e : Event) : Prop :=
  match e with
  | KeyDown key shiftKey =>
      key = "Enter" ∧ shiftKey = false ∧ JS.trim (inputText render) ≠ ""
  | ClickSend =>
      sendDisabled render = false ∧ JS.trim (inputText render) ≠ ""
  | _ => False
  end.

(** Along [events] from [w], no follow-up is sent on an empty transcript. *)
Fixpoint followUpsAfterRecipe (w : World) (events : list Event) : Prop :=
  match events with
  | [] => True
  | e :: events' =>
      (sends (cells w) e → chatHistory (cells w) ≠ [])
      ∧ followUpsAfterRecipe (next w e) events'
  end.

(** What [catch] prints for each handler, and the exception an outcome
    raises. *)
Definition catchMessage (k : Continuation) : string :=
  match k with
  | generateRecipe_resume _ => "レシピの生成中にエラーが発生しました:"
  | sendMessage_resume _ => "応答の生成中にエラーが発生しました:"
  end.

Definition raised (r : Outcome) : Exception :=
  match r with
  | Rejected => AxiosError
  | Resolved _ => TypeError
  end.

(** A pending follow-up closed over a non-empty transcript whose first
    message satisfies [P]. *)
Definition pendingStartsWith (P : ChatMessage → Prop) (call : Call) : Prop :=
  match awaiting call with
  | generateRecipe_resume _ => True
  | sendMessage_resume newHistory => newHistory ≠ [] ∧ startsWith P newHistory
  end.

Definition transcriptsStartWith (P : ChatMessage → Prop) (w : World) : Prop :=
  startsWith P (chatHistory (cells w)) ∧ Forall (pendingStartsWith P) (network w).

(** Sequences of edits of the ingredient list. *)
Inductive Edit : Type :=
| add (now : Z)
| remove (i : string)
| update (i : string) (field : Field) (value : string).

Definition edit (s : State) (e : Edit) : State :=
  match e with
  | add now => addIngredient now s
  | remove i => removeIngredient i s
  | update i field value => updateIngredient i field value s
  end.

Definition edits (es : list Edit) (s : State) : State := foldl edit s es.

Definition ids (s : State) : list string := id <$> ingredients s.

(** The ids the adds of [es] draw, in order. *)
Definition drawn (es : list Edit) : list string :=
  es ≫= λ e, match e with add now => [ pretty now ] | _ => [] end.

(** Every add of [es] draws an id no row carries at that moment. *)
Fixpoint freshAdds (s : State) (es : list Edit) : Prop :=
  match es with
  | [] => True
  | e :: es' =>
      match e with
      | add now => pretty now ∉ ids s
      | _ => True
      end
      ∧ freshAdds (edit s e) es'
  end.

(** Sample data. *)
Definition sampleIngredients : list Ingredient :=
  [ {| id := "1"; name := "onion"; amount := "200" |};
    {| id := "2"; name := ""; amount := "50" |};
    {| id := "3"; name := "carrot"; amount := "" |} ].

Definition sampleBody (texts : list string) : JS.value :=
  JS.Object
    [ ("candidates",
       JS.Array
         [ JS.Object
             [ ("content",
                JS.Object
                  [ ("parts",
                     JS.Array ((λ t, JS.Object [ ("text", JS.Str t) ]) <$> texts))
                  ]) ] ]) ].

(** ** What the page shows *)

(** The label over a message of the transcript, lines 228-232. *)
Definition messageLabel (msg : ChatMessage) : string :=
  match role msg with
  | user =>
      match isIngredientList msg with
      | Some true => "選択した食材"
      | _ => "質問"
      end
  | assistant => "AI回答"
  end.

(** The text of the submit button, line 209. *)
Definition generateLabel (render : State) : string :=
  if isLoading render then "レシピを生成中..." else "レシピを生成".

(** [ing[field]] *)
Definition fieldOf (field : Field) (ing : Ingredient) : string :=
  match field with
  | field_name => name ing
  | field_amount => amount ing
  end.

(** The events of the ingredient editor. *)
Definition editing (e : Event) : Prop :=
  match e with
  | ClickAdd _ | ChangeIngredient _ _ _ | ClickRemove _ => True
  | _ => False
  end.

(** A string made of white space and line terminators only. *)
Definition whitespaceOnly (s : string) : Prop :=
  ∃ ps, Forall (λ p, p ∈ JS.StrWhiteSpaceChar) ps ∧ JS.bytes s = mjoin ps.

(** A transcript made of turns: a user message and the assistant's reply,
    only the very first message possibly flagged as the ingredient list. *)
Inductive Dialogue : list ChatMessage → Prop :=
| Dialogue_nil : Dialogue []
| Dialogue_turn l u a :
    Dialogue l →
    role u = user →
    role a = assistant →
    isIngredientList a = None →
    (l ≠ [] → isIngredientList u = None) →
    Dialogue (l ++ [ u; a ]).

(** A pending follow-up closed over a dialogue and the question that
    extends it. *)
Definition pendingDialogue (call : Call) : Prop :=
  match awaiting call with
  | generateRecipe_resume _ => True
  | sendMessage_resume newHistory =>
      ∃ l u, newHistory = l ++ [ u ] ∧ Dialogue l
             ∧ role u = user ∧ isIngredientList u = None
  end.

Definition dialogues (w : World) : Prop :=
  Dialogue (chatHistory (cells w)) ∧ Forall pendingDialogue (network w).

(** The body of an outstanding call is the one its handler built from the
    values it closed over. *)
Definition coherent (call : Call) : Prop :=
  match awaiting call with
  | generateRecipe_resume l =>
      contents call = [ {| content_role := None; parts := [ prompt l ] |} ]
  | sendMessage_resume newHistory =>
      contents call
      = (λ msg, {| content_role := Some (role msg); parts := [ text msg ] |})
          <$> newHistory
  end.

(** ** Properties *)

(** *** The handlers, equation by equation *)

Ltac run_M :=
  unfold completed, after, resume, generateRecipe, sendMessage,
    try_catch_finally, await, orTypeError, throw, write, axios_post,
    console_error, mbind, M_bind, mret, M_ret;
  cbn.

Arguments resume : simpl never.

Lemma trim_empty : JS.trim "" = "".
Proof. reflexivity. Qed.

Lemma nonblank_nonempty (t : string) : JS.trim t ≠ "" → t ≠ "".
Proof. intros H ->. by apply H. Qed.

Lemma generateRecipe_empty (s : State) (w : World) :
  ingredients s = [] → generateRecipe s w = (inr tt, w).
Proof. intros E. unfold generateRecipe. by rewrite E. Qed.

Lemma generateRecipe_posts (s : State) (w : World) :
  ingredients s ≠ [] →
  generateRecipe s w
  = (inr tt,
     {| cells := setIsLoading true (cells w);
        network :=
          network w
            ++ [ {| contents :=
                      [ {| content_role := None;
                           parts := [ prompt (ingredientsList (ingredients s)) ] |} ];
                    awaiting :=
                      generateRecipe_resume (ingredientsList (ingredients s)) |} ];
        console := console w |}).
Proof.
  intros E. unfold generateRecipe.
  destruct (ingredients s) as [|ing l] eqn:El; [done|].
  by rewrite decide_False.
Qed.

Lemma sendMessage_blank (s : State) (w : World) :
  JS.trim (inputText s) = "" → sendMessage s w = (inr tt, w).
Proof. intros E. unfold sendMessage. by rewrite decide_True. Qed.

Lemma sendMessage_posts (s : State) (w : World) :
  JS.trim (inputText s) ≠ "" →
  let newHistory :=
    chatHistory s
      ++ [ {| role := user; text := inputText s; isIngredientList := None |} ] in
  sendMessage s w
  = (inr tt,
     {| cells := setIsLoading true (cells w);
        network :=
          network w
            ++ [ {| contents :=
                      (λ msg, {| content_role := Some (role msg);
                                 parts := [ text msg ] |}) <$> newHistory;
                    awaiting := sendMessage_resume newHistory |} ];
        console := console w |}).
Proof. intros E. unfold sendMessage. by rewrite decide_False. Qed.

Lemma resume_failed (k : Continuation) (r : Outcome) (w : World) :
  failed r →
  resume k r w
  = (inr tt,
     {| cells := setIsLoading false (cells w);
        network := network w;
        console := console w ++ [ (catchMessage k, raised r) ] |}).
Proof.
  intros F. destruct k, r as [|data]; run_M; try done;
    cbn in F; by rewrite F.
Qed.

Lemma resume_generateRecipe_ok (l : string) (data : JS.value) (recipe : string)
  (w : World) :
  responseText data = Some recipe →
  resume (generateRecipe_resume l) (Resolved data) w
  = (inr tt,
     {| cells :=
          setIsLoading false
            (setChatHistory
               [ {| role := user; text := "食材：" +:+ l;
                    isIngredientList := Some true |};
                 {| role := assistant; text := recipe;
                    isIngredientList := None |} ]
               (cells w));
        network := network w;
        console := console w |}).
Proof. intros E. run_M. by rewrite E. Qed.

Lemma resume_sendMessage_ok (newHistory : list ChatMessage) (data : JS.value)
  (reply : string) (w : World) :
  responseText data = Some reply →
  resume (sendMessage_resume newHistory) (Resolved data) w
  = (inr tt,
     {| cells :=
          setIsLoading false
            (setInputText ""
               (setChatHistory
                  (newHistory
                     ++ [ {| role := assistant; text := reply;
                             isIngredientList := None |} ])
                  (cells w)));
        network := network w;
        console := console w |}).
Proof. intros E. run_M. by rewrite E. Qed.

(** No outcome escapes the [catch]: a resumed handler completes normally. *)
Lemma resume_completes (k : Continuation) (r : Outcome) (w : World) :
  (resume k r w).1 = inr tt.
Proof.
  destruct r as [|data]; [by rewrite resume_failed|].
  destruct (responseText data) as [reply|] eqn:E.
  - destruct k; [by erewrite resume_generateRecipe_ok
                |by erewrite resume_sendMessage_ok].
  - by rewrite resume_failed.
Qed.

Lemma failed_dec (r : Outcome) :
  failed r ∨ ∃ data reply, r = Resolved data ∧ responseText data = Some reply.
Proof.
  destruct r as [|data]; [by left|].
  destruct (responseText data) as [reply|] eqn:E; [right; eauto | by left].
Qed.

(** *** The ingredient list of the prompt *)

Lemma filter_all_blank (l : list Ingredient) :
  Forall (λ ing, JS.trim (name ing) = "") l → filter nonblank l = [].
Proof.
  induction 1 as [|ing l B _ IH]; [done|].
  by rewrite filter_cons_False; [|intros N; apply N].
Qed.

Lemma filter_some_nonblank (l : list Ingredient) :
  Exists nonblank l → filter nonblank l ≠ [].
Proof.
  induction 1 as [ing l N|ing l _ IH].
  - by rewrite filter_cons_True.
  - rewrite filter_cons. by case_decide.
Qed.

(** C6.  [ingredientsList] drops exactly the rows whose trimmed name is
    empty, renders a surviving row as its name, a space, its amount and [g],
    and separates the renderings with the full-width comma; the
    onion/blank/carrot list gives [onion 200g、carrot g] and a list of blank
    rows gives the empty string. *)
Theorem ingredientsList_drops_blank_and_joins :
  (∀ l1 ing l2, JS.trim (name ing) = "" →
     ingredientsList (l1 ++ ing :: l2) = ingredientsList (l1 ++ l2))
  ∧ (∀ ing l, JS.trim (name ing) ≠ "" →
       Forall (λ ing', JS.trim (name ing') = "") l →
       ingredientsList (ing :: l) = name ing +:+ " " +:+ amount ing +:+ "g")
  ∧ (∀ ing l, JS.trim (name ing) ≠ "" →
       Exists (λ ing', JS.trim (name ing') ≠ "") l →
       ingredientsList (ing :: l)
       = (name ing +:+ " " +:+ amount ing +:+ "g") +:+ "、" +:+ ingredientsList l)
  ∧ (∀ l, Forall (λ ing, JS.trim (name ing) = "") l → ingredientsList l = "")
  ∧ ingredientsList sampleIngredients = "onion 200g、carrot g".
Proof.
  split; [|split; [|split; [|split]]].
  - intros l1 ing l2 B. unfold ingredientsList.
    rewrite !filter_app, filter_cons_False; [done|]. intros N. by apply N.
  - intros ing l N B. unfold ingredientsList.
    by rewrite filter_cons_True, filter_all_blank.
  - intros ing l N E. unfold ingredientsList.
    rewrite filter_cons_True by done.
    apply filter_some_nonblank in E.
    by destruct (filter nonblank l).
  - intros l B. unfold ingredientsList. by rewrite filter_all_blank.
  - reflexivity.
Qed.

(** *** One submission, one outcome *)

Lemma responseText_strings (data content : JS.value) (ps : list JS.value)
  (texts : list string) :
  responseContent data = Some content →
  JS.get content "parts" = Some (JS.Array ps) →
  Forall2 (λ part t, JS.get part "text" = Some (JS.Str t)) ps texts →
  responseText data = Some (JS.join LF texts).
Proof.
  intros Ec Ep F. unfold responseText. rewrite Ec. cbn. rewrite Ep. cbn.
  assert (mapM (λ part, JS.get part "text") ps = Some (JS.Str <$> texts)) as ->.
  { apply mapM_Some. by apply Forall2_fmap_r. }
  cbn. by rewrite (mapM_fmap_Some JS.joinElement JS.Str).
Qed.

Lemma responseText_sampleBody (texts : list string) :
  responseText (sampleBody texts) = Some (JS.join LF texts).
Proof.
  eapply responseText_strings; [reflexivity|reflexivity|].
  apply Forall2_fmap_l, Forall_Forall2_diag, Forall_forall. done.
Qed.

(** C7.  A successful initial submission leaves a transcript of exactly two
    entries, whatever it was before: the user message restating the
    ingredients, flagged [isIngredientList], then the assistant message whose
    text is the reply; when the parts carry strings that text is the part
    texts in array order, separated by newlines. *)
Theorem generateRecipe_success (s : State) (data : JS.value) (recipe : string) :
  ingredients s ≠ [] →
  responseText data = Some recipe →
  chatHistory (after generateRecipe (Resolved data) s)
  = [ {| role := user;
         text := "食材：" +:+ ingredientsList (ingredients s);
         isIngredientList := Some true |};
      {| role := assistant; text := recipe; isIngredientList := None |} ]
  ∧ length (chatHistory (after generateRecipe (Resolved data) s)) = 2
  ∧ (∀ content ps texts,
       responseContent data = Some content →
       JS.get content "parts" = Some (JS.Array ps) →
       Forall2 (λ part t, JS.get part "text" = Some (JS.Str t)) ps texts →
       recipe = JS.join LF texts).
Proof.
  intros N E.
  assert (chatHistory (after generateRecipe (Resolved data) s)
          = [ {| role := user;
                 text := "食材：" +:+ ingredientsList (ingredients s);
                 isIngredientList := Some true |};
              {| role := assistant; text := recipe;
                 isIngredientList := None |} ]) as H.
  { unfold after, completed. rewrite generateRecipe_posts by done. cbn.
    by erewrite resume_generateRecipe_ok. }
  split; [done|]. split; [by rewrite H|].
  intros content ps texts Ec Ep F.
  pose proof (responseText_strings _ _ _ _ Ec Ep F) as E'. congruence.
Qed.

Lemma generateRecipe_success_witness :
  ingredients (setIngredients sampleIngredients initialState) ≠ []
  ∧ responseText (sampleBody [ "A"; "B" ]) = Some ("A" +:+ LF +:+ "B")
  ∧ chatHistory
      (after generateRecipe (Resolved (sampleBody [ "A"; "B" ]))
         (setIngredients sampleIngredients initialState))
    = [ {| role := user; text := "食材：onion 200g、carrot g";
           isIngredientList := Some true |};
        {| role := assistant; text := "A" +:+ LF +:+ "B";
           isIngredientList := None |} ].
Proof.
  split; [done|]. split; [reflexivity|].
  apply (generateRecipe_success
           (setIngredients sampleIngredients initialState)
           (sampleBody [ "A"; "B" ]) ("A" +:+ LF +:+ "B"));
    [done|reflexivity].
Defined.

(** C8.  With a non-blank input a successful follow-up appends exactly two
    entries to the transcript it started from, the user message carrying the
    input as typed and then the assistant message, and clears the input; with
    a non-blank input the input ends up cleared only when the follow-up
    succeeded. *)
Theorem sendMessage_success (s : State) (data : JS.value) (reply : string) :
  JS.trim (inputText s) ≠ "" →
  responseText data = Some reply →
  chatHistory (after sendMessage (Resolved data) s)
  = chatHistory s
      ++ [ {| role := user; text := inputText s; isIngredientList := None |};
           {| role := assistant; text := reply; isIngredientList := None |} ]
  ∧ length (chatHistory (after sendMessage (Resolved data) s))
    = length (chatHistory s) + 2
  ∧ inputText (after sendMessage (Resolved data) s) = ""
  ∧ (∀ r, inputText (after sendMessage r s) = "" → ¬ failed r).
Proof.
  intros N E.
  assert (chatHistory (after sendMessage (Resolved data) s)
          = chatHistory s
              ++ [ {| role := user; text := inputText s;
                      isIngredientList := None |};
                   {| role := assistant; text := reply;
                      isIngredientList := None |} ]) as H.
  { unfold after, completed. rewrite sendMessage_posts by done. cbn.
    erewrite resume_sendMessage_ok by done. cbn. by rewrite <- app_assoc. }
  split; [done|]. split; [rewrite H, length_app; cbn; lia|].
  split.
  - unfold after, completed. rewrite sendMessage_posts by done. cbn.
    by erewrite resume_sendMessage_ok.
  - intros r. unfold after, completed. rewrite sendMessage_posts by done.
    cbn. intros C F. rewrite resume_failed in C by done. cbn in C.
    by apply (nonblank_nonempty _ N).
Qed.

Lemma sendMessage_success_witness :
  JS.trim (inputText (setInputText " hi " initialState)) ≠ ""
  ∧ responseText (sampleBody [ "ok" ]) = Some "ok"
  ∧ chatHistory
      (after sendMessage (Resolved (sampleBody [ "ok" ]))
         (setInputText " hi " initialState))
    = [ {| role := user; text := " hi "; isIngredientList := None |};
        {| role := assistant; text := "ok"; isIngredientList := None |} ]
  ∧ inputText
      (after sendMessage (Resolved (sampleBody [ "ok" ]))
         (setInputText " hi " initialState)) = "".
Proof.
  split; [by vm_compute|]. split; [reflexivity|].
  pose proof (sendMessage_success (setInputText " hi " initialState)
                (sampleBody [ "ok" ]) "ok") as H.
  destruct H as (H1 & _ & H3 & _); [by vm_compute|reflexivity|].
  split; [exact H1|exact H3].
Defined.

Lemma deviates_fails (data : JS.value) : deviates data → failed (Resolved data).
Proof.
  intros [E|E|candidates candidate E1 E2 E3]; cbn;
    unfold responseText, responseContent.
  - by rewrite E.
  - by rewrite E.
  - rewrite E1. cbn. rewrite E2. cbn. by rewrite E3.
Qed.

(** C9.  When the body of the response has no [candidates], an empty
    [candidates] array, or a first candidate without [content], the initial
    submission still completes normally: the error is caught and logged, the
    transcript is what it was and the loading flag is false. *)
Theorem generateRecipe_malformed_response (s : State) (data : JS.value) :
  ingredients s ≠ [] →
  deviates data →
  (completed generateRecipe (Resolved data) s).1 = inr tt
  ∧ console (completed generateRecipe (Resolved data) s).2
    = [ ("レシピの生成中にエラーが発生しました:", TypeError) ]
  ∧ chatHistory (after generateRecipe (Resolved data) s) = chatHistory s
  ∧ isLoading (after generateRecipe (Resolved data) s) = false.
Proof.
  intros N D. apply deviates_fails in D.
  unfold after, completed. rewrite generateRecipe_posts by done. cbn.
  by rewrite resume_failed.
Qed.

Lemma generateRecipe_malformed_response_witness :
  ingredients initialState ≠ []
  ∧ deviates (JS.Object [])
  ∧ deviates (JS.Object [ ("candidates", JS.Array []) ])
  ∧ deviates (JS.Object [ ("candidates", JS.Array [ JS.Object [] ]) ])
  ∧ (completed generateRecipe (Resolved (JS.Object [])) initialState).1 = inr tt
  ∧ chatHistory (after generateRecipe (Resolved (JS.Object [])) initialState) = []
  ∧ isLoading (after generateRecipe (Resolved (JS.Object [])) initialState)
    = false.
Proof.
  split; [done|].
  split; [by apply missing_candidates|].
  split; [by apply empty_candidates|].
  split; [by eapply absent_content|].
  destruct (generateRecipe_malformed_response initialState (JS.Object []))
    as (H1 & _ & H3 & H4); [done|by apply missing_candidates|].
  split; [exact H1|]. split; [exact H3|exact H4].
Defined.

(** C10.  [resetChat] writes the transcript, the input text and the loading
    flag and nothing else: the ingredient rows, their ids, names, amounts and
    order, are the ones it found. *)
Theorem resetChat_keeps_ingredients (s : State) :
  ingredients (resetChat s) = ingredients s
  ∧ resetChat s
    = {| ingredients := ingredients s; chatHistory := [];
         isLoading := false; inputText := "" |}.
Proof. done. Qed.

(** *** A follow-up that fails *)

(** With [hi] typed on the mounted page and the request rejected, the
    transcript is still empty: the user message is not in it. *)
Lemma sendMessage_failure_drops_user_message :
  JS.trim (inputText (setInputText "hi" initialState)) ≠ ""
  ∧ failed Rejected
  ∧ {| role := user; text := "hi"; isIngredientList := None |}
    ∉ chatHistory (after sendMessage Rejected (setInputText "hi" initialState)).
Proof.
  split; [by vm_compute|]. split; [done|].
  vm_compute. by intros ?%elem_of_nil.
Qed.

(** C1, amended.  With a non-blank input, a follow-up whose request fails
    leaves the transcript exactly as it was when the handler started (the
    user message went into the request and was never written to the
    transcript, and no assistant message is added), leaves the input text in
    place and the loading flag false. *)
Theorem sendMessage_failure (s : State) (r : Outcome) :
  JS.trim (inputText s) ≠ "" →
  failed r →
  chatHistory (after sendMessage r s) = chatHistory s
  ∧ inputText (after sendMessage r s) = inputText s
  ∧ isLoading (after sendMessage r s) = false
  ∧ (completed sendMessage r s).1 = inr tt.
Proof.
  intros N F. unfold after, completed.
  rewrite sendMessage_posts by done. cbn. by rewrite resume_failed.
Qed.

Lemma sendMessage_failure_witness :
  JS.trim (inputText (setInputText "hi" initialState)) ≠ ""
  ∧ failed Rejected
  ∧ chatHistory (after sendMessage Rejected (setInputText "hi" initialState)) = []
  ∧ inputText (after sendMessage Rejected (setInputText "hi" initialState)) = "hi"
  ∧ isLoading (after sendMessage Rejected (setInputText "hi" initialState))
    = false.
Proof.
  split; [by vm_compute|]. split; [done|].
  destruct (sendMessage_failure (setInputText "hi" initialState) Rejected)
    as (H1 & H2 & H3 & _); [by vm_compute|done|].
  split; [exact H1|]. split; [exact H2|exact H3].
Defined.

(** *** Where the guards of a submission are *)

(** [generateRecipe] has one guard of its own, the empty list of line 62:
    were it called on the three blank rows of the mounted page it would
    post.  The page never calls it there: its only caller is the submit
    button, which is disabled in that state. *)
Lemma generateRecipe_posts_for_blank_rows :
  Forall (λ ing, JS.trim (name ing) = "") (ingredients initialState)
  ∧ generateRecipe initialState (alone initialState)
    ≠ (inr tt, alone initialState)
  ∧ length (network (generateRecipe initialState (alone initialState)).2) = 1
  ∧ isLoading (cells (generateRecipe initialState (alone initialState)).2)
    = true.
Proof.
  split; [by repeat constructor|].
  rewrite generateRecipe_posts by done. by split.
Qed.

Lemma generateDisabled_true (s : State) :
  Forall (λ ing, JS.trim (name ing) = "") (ingredients s) ∨ isLoading s = true →
  generateDisabled s = true.
Proof.
  unfold generateDisabled. intros [B| ->]; [|done].
  rewrite filter_all_blank by done. cbn. apply orb_true_r.
Qed.



(** *** Requests while one is outstanding *)

(** C3.  The guard is on the buttons, and Enter in the input goes past it:
    with [hi] typed, a first Enter posts and raises the loading flag, and a
    second Enter before the reply posts again. *)
Theorem enter_while_loading_posts_again :
  isLoading (cells (run [ ChangeInput "hi"; KeyDown "Enter" false ] mount)) = true
  ∧ length (network (run [ ChangeInput "hi"; KeyDown "Enter" false ] mount)) = 1
  ∧ length
      (network
         (run [ ChangeInput "hi"; KeyDown "Enter" false; KeyDown "Enter" false ]
            mount)) = 2.
Proof. by vm_compute. Qed.

(** Neither handler reads the loading flag. *)
Lemma handlers_ignore_isLoading (s : State) (w : World) :
  generateRecipe (setIsLoading true s) w = generateRecipe s w
  ∧ sendMessage (setIsLoading true s) w = sendMessage s w.
Proof. done. Qed.

(** While the loading flag is true a click on either button posts nothing. *)
Lemma buttons_disabled_while_loading (w : World) :
  isLoading (cells w) = true →
  dispatch ClickGenerate w = (inr tt, w) ∧ dispatch ClickSend w = (inr tt, w).
Proof.
  intros L. split.
  - unfold dispatch, handle. rewrite generateDisabled_true; [done|by right].
  - unfold dispatch, handle, sendDisabled. by rewrite L.
Qed.

(** [resetChat] lowers the flag under a call that is still outstanding. *)
Lemma reset_then_generate_posts_again :
  let typed := ChangeIngredient "1" field_name "onion" in
  length (network (run [ typed; ClickGenerate; ClickReset; ClickGenerate ] mount))
  = 2.
Proof. by vm_compute. Qed.

(** *** How a transcript starts *)

Section StartsWith.

Variable P : ChatMessage → Prop.

Hypothesis P_ingredients :
  ∀ t, P {| role := user; text := t; isIngredientList := Some true |}.

Lemma startsWith_snoc (l : list ChatMessage) (m : ChatMessage) :
  startsWith P l → l ≠ [] → startsWith P (l ++ [ m ]).
Proof. by destruct l. Qed.

Lemma write_transcriptsStartWith (f : State → State) (w : World) :
  chatHistory (f (cells w)) = chatHistory (cells w) ∨ chatHistory (f (cells w)) = [] →
  transcriptsStartWith P w →
  transcriptsStartWith P (write f w).2.
Proof.
  intros E [H1 H2]. split; [|done]. cbn.
  destruct E as [-> | ->]; done.
Qed.

Lemma generateRecipe_transcriptsStartWith (s : State) (w : World) :
  transcriptsStartWith P w → transcriptsStartWith P (generateRecipe s w).2.
Proof.
  intros [H1 H2]. destruct (decide (ingredients s = [])) as [E|E].
  - rewrite generateRecipe_empty by done. by split.
  - rewrite generateRecipe_posts by done. split; [done|]. cbn.
    apply Forall_app. split; [done|]. by repeat constructor.
Qed.

Lemma sendMessage_transcriptsStartWith (w : World) :
  (JS.trim (inputText (cells w)) ≠ "" →
   (∀ t, P {| role := user; text := t; isIngredientList := None |})
   ∨ chatHistory (cells w) ≠ []) →
  transcriptsStartWith P w →
  transcriptsStartWith P (sendMessage (cells w) w).2.
Proof.
  intros A [H1 H2].
  destruct (decide (JS.trim (inputText (cells w)) = "")) as [E|E].
  - rewrite sendMessage_blank by done. by split.
  - specialize (A E).
    rewrite sendMessage_posts by done. split; [done|]. cbn.
    apply Forall_app. split; [done|]. constructor; [|done].
    split; [by destruct (chatHistory (cells w))|].
    destruct (chatHistory (cells w)) as [|m l] eqn:El; [|done].
    cbn. by destruct A.
Qed.

Lemma settle_transcriptsStartWith (n : nat) (r : Outcome) (w : World) :
  transcriptsStartWith P w → transcriptsStartWith P (settle n r w).2.
Proof.
  intros [H1 H2]. unfold settle.
  destruct (network w !! n) as [call|] eqn:En; [|by split].
  assert (pendingStartsWith P call) as Hc
    by (eapply Forall_lookup in H2; eauto).
  assert (Forall (pendingStartsWith P) (delete n (network w))) as Hd
    by by apply Forall_delete.
  destruct (failed_dec r) as [F|(data & reply & -> & E)].
  - rewrite resume_failed by done. by split.
  - unfold pendingStartsWith in Hc.
    destruct (awaiting call) as [l|newHistory].
    + erewrite resume_generateRecipe_ok by done.
      split; [apply P_ingredients|done].
    + erewrite resume_sendMessage_ok by done. split; [|done]. cbn.
      destruct Hc. by apply startsWith_snoc.
Qed.

(** Each event keeps every transcript, written or closed over, starting
    the way [P] says. *)
Lemma next_transcriptsStartWith (w : World) (e : Event) :
  (sends (cells w) e →
   (∀ t, P {| role := user; text := t; isIngredientList := None |})
   ∨ chatHistory (cells w) ≠ []) →
  transcriptsStartWith P w →
  transcriptsStartWith P (next w e).
Proof.
  intros A I. unfold next, dispatch.
  destruct e as [now|i field value|i| | |value|key shiftKey| |n r]; cbn - [write].
  - by apply write_transcriptsStartWith; [left|].
  - by apply write_transcriptsStartWith; [left|].
  - by apply write_transcriptsStartWith; [left|].
  - destruct (generateDisabled (cells w)); [done|].
    by apply generateRecipe_transcriptsStartWith.
  - by apply write_transcriptsStartWith; [right|].
  - by apply write_transcriptsStartWith; [left|].
  - destruct (bool_decide (key = "Enter") && negb shiftKey) eqn:K; [|done].
    apply andb_true_iff in K as [K1%bool_decide_eq_true K2%negb_true_iff].
    apply sendMessage_transcriptsStartWith; [|done].
    intros N. by apply A.
  - destruct (sendDisabled (cells w)) eqn:D; [done|].
    apply sendMessage_transcriptsStartWith; [|done].
    intros N. apply A. cbn. by rewrite D.
  - by apply settle_transcriptsStartWith.
Qed.

Lemma run_transcriptsStartWith (events : list Event) (w : World) :
  (∀ t, P {| role := user; text := t; isIngredientList := None |})
  ∨ followUpsAfterRecipe w events →
  transcriptsStartWith P w →
  transcriptsStartWith P (run events w).
Proof.
  revert w. induction events as [|e events IH]; intros w A I; [done|].
  cbn. apply IH.
  - destruct A as [A|[_ A]]; [by left|by right].
  - apply next_transcriptsStartWith; [|done].
    intros S. destruct A as [A|[A _]]; [by left|right; by apply A].
Qed.

End StartsWith.

(** A follow-up sent before any recipe starts the transcript with a user
    message that is not an ingredient list. *)
Lemma follow_up_first_starts_transcript :
  chatHistory
    (cells
       (run [ ChangeInput "hi"; KeyDown "Enter" false;
              Settle 0 (Resolved (sampleBody [ "ok" ])) ] mount))
  = [ {| role := user; text := "hi"; isIngredientList := None |};
      {| role := assistant; text := "ok"; isIngredientList := None |} ]
  ∧ ¬ startsWith isIngredientMessage
        (chatHistory
           (cells
              (run [ ChangeInput "hi"; KeyDown "Enter" false;
                     Settle 0 (Resolved (sampleBody [ "ok" ])) ] mount))).
Proof. split; [by vm_compute|]. vm_compute. by intros [_ ?]. Qed.

(** C2, amended.  After any sequence of events from the mounted page, a
    non-empty transcript begins with a user message; that message is the
    ingredient list, with [isIngredientList] true, when no follow-up of the
    sequence was sent while the transcript was empty (an Enter or a click
    that sends nothing, on a blank input or a disabled button, does not
    count). *)
Theorem transcript_starts_with_user (events : list Event) :
  startsWith isUser (chatHistory (cells (run events mount)))
  ∧ (followUpsAfterRecipe mount events →
     startsWith isIngredientMessage (chatHistory (cells (run events mount)))).
Proof.
  split.
  - apply (run_transcriptsStartWith isUser); [done|by left|by split].
  - intros A.
    apply (run_transcriptsStartWith isIngredientMessage);
      [done|by right|by split].
Qed.

Lemma transcript_starts_with_user_witness :
  followUpsAfterRecipe mount
    [ KeyDown "Enter" false; ClickSend;
      ChangeIngredient "1" field_name "onion"; ClickGenerate;
      Settle 0 (Resolved (sampleBody [ "A"; "B" ]));
      ChangeInput "hi"; KeyDown "Enter" false;
      Settle 0 (Resolved (sampleBody [ "ok" ])) ]
  ∧ startsWith isIngredientMessage
      (chatHistory
         (cells
            (run [ KeyDown "Enter" false; ClickSend;
                   ChangeIngredient "1" field_name "onion"; ClickGenerate;
                   Settle 0 (Resolved (sampleBody [ "A"; "B" ]));
                   ChangeInput "hi"; KeyDown "Enter" false;
                   Settle 0 (Resolved (sampleBody [ "ok" ])) ] mount))).
Proof.
  assert (followUpsAfterRecipe mount
            [ KeyDown "Enter" false; ClickSend;
              ChangeIngredient "1" field_name "onion"; ClickGenerate;
              Settle 0 (Resolved (sampleBody [ "A"; "B" ]));
              ChangeInput "hi"; KeyDown "Enter" false;
              Settle 0 (Resolved (sampleBody [ "ok" ])) ]) as A.
  { vm_compute.
    repeat split; try done;
      try (intros (_ & _ & N); by destruct N);
      try (intros (_ & N); by destruct N). }
  split; [exact A|].
  exact (proj2 (transcript_starts_with_user _) A).
Defined.

(** *** The rows of the editor *)

Lemma ids_addIngredient (now : Z) (s : State) :
  ids (addIngredient now s) = ids s ++ [ pretty now ].
Proof. unfold ids. cbn. by rewrite fmap_app. Qed.

Lemma ids_removeIngredient (i : string) (s : State) :
  ids (removeIngredient i s) = filter (λ j, j ≠ i) (ids s).
Proof.
  unfold ids, removeIngredient, setIngredients. cbn [ingredients].
  induction (ingredients s) as [|ing l IH]; [done|].
  rewrite fmap_cons, !filter_cons.
  repeat case_decide; rewrite ?fmap_cons, IH; done.
Qed.

Lemma ids_updateIngredient (i : string) (field : Field) (value : string)
  (s : State) :
  ids (updateIngredient i field value s) = ids s.
Proof.
  unfold ids. cbn. rewrite <- list_fmap_compose. apply list_fmap_ext.
  intros k ing _. cbn. case_decide; [by destruct field|done].
Qed.

(** A removal leaves the other rows as they are and where they are
    relative to each other; an update leaves every row its id, and the rows
    with another id untouched. *)
Lemma removeIngredient_sublist (i : string) (s : State) :
  ingredients (removeIngredient i s) `sublist_of` ingredients s.
Proof. apply sublist_filter. Qed.

Lemma updateIngredient_rows (i : string) (field : Field) (value : string)
  (s : State) :
  Forall2 (λ old new, id new = id old ∧ (id old ≠ i → new = old))
    (ingredients s) (ingredients (updateIngredient i field value s)).
Proof.
  cbn. apply Forall2_fmap_r, Forall_Forall2_diag, Forall_forall.
  intros ing _. unfold compose.
  destruct (decide (id ing = i)); [by destruct field|done].
Qed.

Lemma edit_cells (s : State) (e : Edit) :
  chatHistory (edit s e) = chatHistory s
  ∧ isLoading (edit s e) = isLoading s
  ∧ inputText (edit s e) = inputText s.
Proof. by destruct e. Qed.

Lemma edits_order (es : list Edit) (s : State) :
  ∃ kept added,
    ids (edits es s) = kept ++ added
    ∧ kept `sublist_of` ids s
    ∧ added `sublist_of` drawn es.
Proof.
  revert s. induction es as [|e es IH]; intros s.
  { exists (ids s), []. by rewrite app_nil_r. }
  destruct (IH (edit s e)) as (kept & added & E & K & A).
  cbn [edits foldl]. fold (edits es (edit s e)). rewrite E.
  destruct e as [now|i|i field value]; cbn [edit] in *.
  - rewrite ids_addIngredient in K.
    apply sublist_app_r in K as (k1 & k2 & -> & K1 & K2).
    exists k1, (k2 ++ added). split; [by rewrite app_assoc|]. split; [done|].
    unfold drawn. rewrite bind_cons. by apply sublist_app.
  - rewrite ids_removeIngredient in K.
    exists kept, added. split; [done|]. split; [|done].
    etrans; [exact K|apply sublist_filter].
  - rewrite ids_updateIngredient in K. by exists kept, added.
Qed.

Lemma edits_NoDup (es : list Edit) (s : State) :
  NoDup (ids s) → freshAdds s es → NoDup (ids (edits es s)).
Proof.
  revert s. induction es as [|e es IH]; intros s N F; [done|].
  destruct F as [F1 F2]. cbn [edits foldl]. apply IH; [|done].
  destruct e as [now|i|i field value]; cbn [edit].
  - rewrite ids_addIngredient. apply NoDup_app.
    split; [done|]. split; [|apply NoDup_singleton].
    intros x Hx ->%list_elem_of_singleton. by apply F1.
  - rewrite ids_removeIngredient. by apply NoDup_filter.
  - by rewrite ids_updateIngredient.
Qed.

(** The three initial rows have distinct ids. *)
Lemma initial_ids_NoDup : NoDup (ids initialState).
Proof. apply (bool_decide_unpack _). by vm_compute. Qed.

(** C5.  Ids do not stay pairwise distinct: [addIngredient] takes the id
    from the clock and two adds that read the same millisecond give two rows
    the same id, on the initial list and on any other; the rows are then no
    longer addressed one by one, a removal of that id deletes both. *)
Theorem add_twice_in_one_millisecond :
  ids (edits [ add 1700000000000; add 1700000000000 ] initialState)
  = [ "1"; "2"; "3"; "1700000000000"; "1700000000000" ]
  ∧ ¬ NoDup (ids (edits [ add 1700000000000; add 1700000000000 ] initialState))
  ∧ ids
      (edits [ add 1700000000000; add 1700000000000; remove "1700000000000" ]
         initialState)
    = [ "1"; "2"; "3" ]
  ∧ ∀ now s, ¬ NoDup (ids (addIngredient now (addIngredient now s))).
Proof.
  split; [by vm_compute|]. split; [|split; [by vm_compute|]].
  - assert (ids (edits [ add 1700000000000; add 1700000000000 ] initialState)
            = [ "1"; "2"; "3"; "1700000000000"; "1700000000000" ]) as ->
      by by vm_compute.
    rewrite !NoDup_cons. intros (_ & _ & _ & H & _). apply H. by left.
  - intros now s. rewrite !ids_addIngredient, <- app_assoc.
    rewrite NoDup_app. intros (_ & _ & H). cbn in H.
    apply NoDup_cons in H as [H _]. apply H. by left.
Qed.

(** ** Further properties *)

(** *** Editing by id *)

Lemma State_eta (s : State) :
  {| ingredients := ingredients s; chatHistory := chatHistory s;
     isLoading := isLoading s; inputText := inputText s |} = s.
Proof. by destruct s. Qed.

Lemma setIngredients_same (s : State) : setIngredients (ingredients s) s = s.
Proof. apply State_eta. Qed.

Lemma filter_other_ids (i : string) (l : list Ingredient) :
  i ∉ id <$> l → filter (λ ing, id ing ≠ i) l = l.
Proof.
  induction l as [|ing l IH]; [done|]. rewrite fmap_cons, not_elem_of_cons.
  intros [N1 N2]. rewrite filter_cons_True by done. by rewrite IH.
Qed.

Lemma update_other_ids (i : string) (field : Field) (value : string)
  (l : list Ingredient) :
  i ∉ id <$> l →
  (λ ing, if decide (id ing = i) then withField ing field value else ing) <$> l
  = l.
Proof.
  induction l as [|ing l IH]; [done|]. rewrite !fmap_cons, not_elem_of_cons.
  intros [N1 N2]. rewrite IH by done. by rewrite decide_False.
Qed.

(** X1.  A removal or an update addressed to an id no row carries changes
    nothing at all. *)
Theorem editor_absent_id (s : State) (i : string) (field : Field)
  (value : string) :
  i ∉ ids s →
  removeIngredient i s = s ∧ updateIngredient i field value s = s.
Proof.
  intros N. unfold removeIngredient, updateIngredient.
  rewrite filter_other_ids, update_other_ids by done.
  by rewrite setIngredients_same.
Qed.

Lemma editor_absent_id_witness :
  ("7" ∉ ids initialState)
  ∧ removeIngredient "7" initialState = initialState
  ∧ updateIngredient "7" field_name "onion" initialState = initialState.
Proof.
  assert ("7" ∉ ids initialState) as N
    by (apply (bool_decide_unpack _); by vm_compute).
  split; [exact N|].
  exact (editor_absent_id initialState "7" field_name "onion" N).
Defined.


(** X3.  Adding a row and then removing the id it drew gives back the list
    as it was, provided no other row carried that id. *)
Theorem add_then_remove (now : Z) (s : State) :
  pretty now ∉ ids s →
  removeIngredient (pretty now) (addIngredient now s) = s.
Proof.
  intros N. unfold removeIngredient, addIngredient, setIngredients. cbn.
  rewrite filter_app, filter_other_ids by done.
  rewrite filter_cons_False by (cbn; tauto).
  rewrite filter_nil, app_nil_r. apply State_eta.
Qed.

Lemma add_then_remove_witness :
  (pretty 1700000000000%Z ∉ ids initialState)
  ∧ removeIngredient (pretty 1700000000000%Z)
      (addIngredient 1700000000000 initialState) = initialState.
Proof.
  assert (pretty 1700000000000%Z ∉ ids initialState) as N
    by (apply (bool_decide_unpack _); by vm_compute).
  split; [exact N|]. exact (add_then_remove _ _ N).
Defined.

Lemma withField_twice (ing : Ingredient) (field : Field) (v1 v2 : string) :
  withField (withField ing field v1) field v2 = withField ing field v2.
Proof. by destruct field. Qed.

Lemma withField_swap (ing : Ingredient) (v u : string) :
  withField (withField ing field_amount u) field_name v
  = withField (withField ing field_name v) field_amount u.
Proof. done. Qed.

Lemma withField_id (ing : Ingredient) (field : Field) (value : string) :
  id (withField ing field value) = id ing.
Proof. by destruct field. Qed.

(** X4.  Updates compose the way edits of a form should: on one row and one
    field the last value stands; updates of different rows, or of the two
    fields of one row, give the same list in either order. *)
Theorem updateIngredient_compose (s : State) (i j : string) (f g : Field)
  (v u : string) :
  updateIngredient i f u (updateIngredient i f v s) = updateIngredient i f u s
  ∧ (i ≠ j ∨ f ≠ g →
     updateIngredient i f v (updateIngredient j g u s)
     = updateIngredient j g u (updateIngredient i f v s)).
Proof.
  split.
  - unfold updateIngredient, setIngredients. cbn. f_equal.
    rewrite <- list_fmap_compose. apply list_fmap_ext. intros k ing _. cbn.
    destruct (decide (id ing = i)) as [E|E].
    + by rewrite withField_id, decide_True, withField_twice.
    + by rewrite decide_False.
  - intros D. unfold updateIngredient, setIngredients. cbn. f_equal.
    rewrite <- !list_fmap_compose. apply list_fmap_ext. intros k ing _. cbn.
    destruct (decide (id ing = i)) as [Ei|Ei], (decide (id ing = j)) as [Ej|Ej];
      rewrite ?withField_id, ?(decide_True _ _ Ei), ?(decide_True _ _ Ej),
        ?(decide_False _ _ Ei), ?(decide_False _ _ Ej); try done.
    destruct D as [D|D]; [congruence|].
    destruct f, g; done.
Qed.

Lemma updateIngredient_compose_witness :
  (("1" : string) ≠ "1" ∨ field_name ≠ field_amount)
  ∧ updateIngredient "1" field_name "onion"
      (updateIngredient "1" field_amount "200" initialState)
    = updateIngredient "1" field_amount "200"
        (updateIngredient "1" field_name "onion" initialState).
Proof.
  assert (("1" : string) ≠ "1" ∨ field_name ≠ field_amount) as D
    by (by right).
  split; [exact D|].
  exact (proj2 (updateIngredient_compose initialState "1" "1"
                  field_name field_amount "onion" "200") D).
Defined.

(** X5.  After an update every row that carries the id holds the value in
    the field, the other field of those rows and every other row are as
    before, and the list has the rows it had, in place. *)
Theorem updateIngredient_reads_back (s : State) (i : string) (field : Field)
  (value : string) (k : nat) (ing : Ingredient) :
  ingredients s !! k = Some ing →
  ∃ ing',
    ingredients (updateIngredient i field value s) !! k = Some ing'
    ∧ id ing' = id ing
    ∧ (id ing = i → fieldOf field ing' = value
                    ∧ ∀ g, g ≠ field → fieldOf g ing' = fieldOf g ing)
    ∧ (id ing ≠ i → ing' = ing)
    ∧ length (ingredients (updateIngredient i field value s))
      = length (ingredients s).
Proof.
  intros L. unfold updateIngredient, setIngredients. cbn.
  rewrite list_lookup_fmap, L, length_fmap. cbn.
  eexists. split; [done|].
  destruct (decide (id ing = i)) as [E|E].
  - rewrite withField_id. split; [done|]. split; [|done].
    intros _. split; [by destruct field|].
    intros g G. by destruct field, g.
  - done.
Qed.

Lemma updateIngredient_reads_back_witness :
  ingredients initialState !! 1 = Some {| id := "2"; name := ""; amount := "" |}
  ∧ ingredients (updateIngredient "2" field_amount "50" initialState) !! 1
    = Some {| id := "2"; name := ""; amount := "50" |}.
Proof.
  split; [done|].
  destruct (updateIngredient_reads_back initialState "2" field_amount "50" 1
              {| id := "2"; name := ""; amount := "" |} eq_refl)
    as (ing' & L & _). done.
Defined.

(** *** The ingredient list string and the rows *)

Lemma append_assoc (a b c : string) : (a +:+ b) +:+ c = a +:+ (b +:+ c).
Proof.
  induction a as [|x a IH]; [done|].
  change (String x ((a +:+ b) +:+ c) = String x (a +:+ (b +:+ c))).
  by rewrite IH.
Qed.

Lemma append_nonempty (a b : string) : a ≠ "" → a +:+ b ≠ "".
Proof. by destruct a. Qed.

Lemma join_app (sep : string) (l1 l2 : list string) :
  l1 ≠ [] → l2 ≠ [] →
  JS.join sep (l1 ++ l2) = JS.join sep l1 +:+ sep +:+ JS.join sep l2.
Proof.
  intros N1 N2. induction l1 as [|x [|y l1] IH]; [done| |].
  - by destruct l2.
  - change (x +:+ sep +:+ JS.join sep ((y :: l1) ++ l2)
            = (x +:+ sep +:+ JS.join sep (y :: l1)) +:+ sep +:+ JS.join sep l2).
    rewrite IH by done. by rewrite !append_assoc.
Qed.

Lemma join_nonempty (sep : string) (l : list string) :
  l ≠ [] → Forall (λ x, x ≠ "") l → JS.join sep l ≠ "".
Proof.
  intros N F. destruct F as [|x [|y l] Hx F]; [done|done|].
  by apply append_nonempty.
Qed.

Lemma ingredientsList_empty_iff (l : list Ingredient) :
  ingredientsList l = "" ↔ filter nonblank l = [].
Proof.
  unfold ingredientsList. split; [|by intros ->].
  intros E. destruct (filter nonblank l) as [|ing l'] eqn:F; [done|].
  exfalso. revert E. apply join_nonempty; [done|].
  apply Forall_fmap, Forall_forall. intros r _. cbn.
  destruct (name r); done.
Qed.

Lemma filter_nonblank_nil (l : list Ingredient) :
  filter nonblank l = [] ↔ Forall (λ ing, JS.trim (name ing) = "") l.
Proof.
  split; [|apply filter_all_blank].
  induction l as [|ing l IH]; [done|]. rewrite filter_cons.
  destruct (decide (nonblank ing)) as [N|N]; [done|].
  intros E. constructor; [|by apply IH].
  unfold nonblank in N. by destruct (decide (JS.trim (name ing) = "")).
Qed.

(** X6.  The list string of a concatenation of rows is made of the list
    strings of the two halves: either one when the other is empty, both
    separated by the full-width comma otherwise; and the list string is
    empty exactly when every row has a blank trimmed name. *)
Theorem ingredientsList_app (l1 l2 : list Ingredient) :
  (ingredientsList l1 = "" ↔ Forall (λ ing, JS.trim (name ing) = "") l1)
  ∧ (ingredientsList l1 = "" →
     ingredientsList (l1 ++ l2) = ingredientsList l2)
  ∧ (ingredientsList l2 = "" →
     ingredientsList (l1 ++ l2) = ingredientsList l1)
  ∧ (ingredientsList l1 ≠ "" → ingredientsList l2 ≠ "" →
     ingredientsList (l1 ++ l2)
     = ingredientsList l1 +:+ "、" +:+ ingredientsList l2).
Proof.
  split; [|split; [|split]].
  - by rewrite ingredientsList_empty_iff, filter_nonblank_nil.
  - intros E%ingredientsList_empty_iff. unfold ingredientsList.
    by rewrite filter_app, E.
  - intros E%ingredientsList_empty_iff. unfold ingredientsList.
    by rewrite filter_app, E, app_nil_r.
  - rewrite !ingredientsList_empty_iff. intros N1 N2. unfold ingredientsList.
    rewrite filter_app, fmap_app. apply join_app.
    + by destruct (filter nonblank l1).
    + by destruct (filter nonblank l2).
Qed.

Lemma ingredientsList_app_witness :
  ingredientsList (take 1 sampleIngredients) ≠ ""
  ∧ ingredientsList (drop 1 sampleIngredients) ≠ ""
  ∧ ingredientsList (take 1 sampleIngredients ++ drop 1 sampleIngredients)
    = ingredientsList (take 1 sampleIngredients) +:+ "、"
      +:+ ingredientsList (drop 1 sampleIngredients).
Proof.
  assert (ingredientsList (take 1 sampleIngredients) ≠ "") as N1 by done.
  assert (ingredientsList (drop 1 sampleIngredients) ≠ "") as N2 by done.
  split; [exact N1|]. split; [exact N2|].
  exact (proj2 (proj2 (proj2 (ingredientsList_app _ _))) N1 N2).
Defined.

Lemma filter_nonblank_remove (i : string) (l : list Ingredient) :
  Forall (λ ing, id ing = i → JS.trim (name ing) = "") l →
  filter nonblank (filter (λ ing, id ing ≠ i) l) = filter nonblank l.
Proof.
  induction 1 as [|ing l B _ IH]; [done|].
  rewrite (filter_cons (λ ing, id ing ≠ i)), (filter_cons nonblank ing l).
  destruct (decide (id ing ≠ i)) as [D|D].
  - rewrite filter_cons. by rewrite IH.
  - rewrite IH. destruct (decide (nonblank ing)) as [N|N]; [|done].
    destruct N. apply B. by destruct (decide (id ing = i)).
Qed.

Lemma filter_nonblank_amount (i : string) (value : string)
  (l : list Ingredient) :
  Forall (λ ing, id ing = i → JS.trim (name ing) = "") l →
  filter nonblank
    ((λ ing, if decide (id ing = i) then withField ing field_amount value
             else ing) <$> l)
  = filter nonblank l.
Proof.
  induction 1 as [|ing l B _ IH]; [done|].
  rewrite fmap_cons, !filter_cons, IH.
  destruct (decide (id ing = i)) as [E|E]; [|done].
  rewrite !decide_False; [done| |]; unfold nonblank; cbn; intros N;
    by apply N, B.
Qed.

(** X7.  Rows with a blank trimmed name do not show in the list string:
    it is the same after an add, and the same after removing the rows of an
    id, or setting their amount, when those rows have blank names. *)
Theorem blank_rows_invisible (s : State) (now : Z) (i : string)
  (value : string) :
  ingredientsList (ingredients (addIngredient now s))
  = ingredientsList (ingredients s)
  ∧ (Forall (λ ing, id ing = i → JS.trim (name ing) = "") (ingredients s) →
     ingredientsList (ingredients (removeIngredient i s))
     = ingredientsList (ingredients s)
     ∧ ingredientsList (ingredients (updateIngredient i field_amount value s))
       = ingredientsList (ingredients s)).
Proof.
  split.
  - unfold addIngredient, ingredientsList. cbn [ingredients setIngredients].
    rewrite filter_app, filter_cons_False, filter_nil, app_nil_r; [done|].
    unfold nonblank. cbn. tauto.
  - intros B. unfold removeIngredient, updateIngredient, ingredientsList.
    cbn [ingredients setIngredients].
    by rewrite filter_nonblank_remove, filter_nonblank_amount.
Qed.

Lemma blank_rows_invisible_witness :
  Forall (λ ing, id ing = "2" → JS.trim (name ing) = "") sampleIngredients
  ∧ ingredientsList
      (ingredients
         (removeIngredient "2" (setIngredients sampleIngredients initialState)))
    = "onion 200g、carrot g".
Proof.
  assert (Forall (λ ing, id ing = "2" → JS.trim (name ing) = "")
            sampleIngredients) as B.
  { repeat constructor; cbn; done. }
  split; [exact B|].
  rewrite (proj1 (proj2 (blank_rows_invisible
                           (setIngredients sampleIngredients initialState)
                           0 "2" "") B)).
  reflexivity.
Defined.

(** *** What a click on the submit button posts *)

(** X8.  With the loading flag down and at least one row with a non-blank
    trimmed name, a click on the submit button posts exactly one request:
    a single content without role whose single part is the prompt built from
    the list string; the list string is not empty; the flag goes up and no
    other cell, and nothing on the console, changes. *)
Theorem clickGenerate_posts (w : World) :
  isLoading (cells w) = false →
  Exists (λ ing, JS.trim (name ing) ≠ "") (ingredients (cells w)) →
  next w ClickGenerate
  = {| cells := setIsLoading true (cells w);
       network :=
         network w
           ++ [ {| contents :=
                     [ {| content_role := None;
                          parts :=
                            [ prompt (ingredientsList (ingredients (cells w))) ]
                       |} ];
                   awaiting :=
                     generateRecipe_resume
                       (ingredientsList (ingredients (cells w))) |} ];
       console := console w |}
  ∧ ingredientsList (ingredients (cells w)) ≠ "".
Proof.
  intros L E.
  assert (filter nonblank (ingredients (cells w)) ≠ []) as F
    by by apply filter_some_nonblank.
  split; [|by rewrite ingredientsList_empty_iff].
  unfold next, dispatch, handle, generateDisabled. rewrite L. cbn [orb].
  rewrite bool_decide_eq_false_2.
  - rewrite generateRecipe_posts; [done|]. intros N. by rewrite N in F.
  - by destruct (filter nonblank (ingredients (cells w))).
Qed.

Lemma clickGenerate_posts_witness :
  isLoading (cells (alone (setIngredients sampleIngredients initialState)))
  = false
  ∧ Exists (λ ing, JS.trim (name ing) ≠ "")
      (ingredients (cells (alone (setIngredients sampleIngredients initialState))))
  ∧ length
      (network
         (next (alone (setIngredients sampleIngredients initialState))
            ClickGenerate)) = 1.
Proof.
  assert (Exists (λ ing, JS.trim (name ing) ≠ "")
            (ingredients
               (cells (alone (setIngredients sampleIngredients initialState)))))
    as E by (by left).
  split; [done|]. split; [exact E|].
  by rewrite (proj1 (clickGenerate_posts
                       (alone (setIngredients sampleIngredients initialState))
                       eq_refl E)).
Defined.

(** *** What a follow-up sends *)

(** X9.  A follow-up with a non-blank input posts one request whose
    contents are the transcript in order, one entry per message with the
    message's role and its text as the only part, followed by one entry for
    the new user message with the input as typed; the transcript itself is
    not written before the reply. *)
Theorem sendMessage_request (s : State) (w : World) :
  JS.trim (inputText s) ≠ "" →
  ∃ call,
    (sendMessage s w).2
    = {| cells := setIsLoading true (cells w);
         network := network w ++ [ call ];
         console := console w |}
    ∧ awaiting call
      = sendMessage_resume
          (chatHistory s
             ++ [ {| role := user; text := inputText s;
                     isIngredientList := None |} ])
    ∧ length (contents call) = length (chatHistory s) + 1
    ∧ (∀ k m, chatHistory s !! k = Some m →
         contents call !! k
         = Some {| content_role := Some (role m); parts := [ text m ] |})
    ∧ last (contents call)
      = Some {| content_role := Some user; parts := [ inputText s ] |}.
Proof.
  intros N. rewrite sendMessage_posts by done. eexists. split; [done|].
  cbn [awaiting contents]. split; [done|]. split; [|split].
  - rewrite length_fmap, length_app. cbn. lia.
  - intros k m L. rewrite list_lookup_fmap.
    by rewrite (lookup_app_l_Some _ _ _ _ L).
  - by rewrite fmap_snoc, last_snoc.
Qed.

Lemma sendMessage_request_witness :
  JS.trim (inputText (setInputText " hi " initialState)) ≠ ""
  ∧ ∃ call,
      network
        (sendMessage (setInputText " hi " initialState)
           (alone (setInputText " hi " initialState))).2 = [ call ]
      ∧ contents call
        = [ {| content_role := Some user; parts := [ " hi " ] |} ].
Proof.
  assert (JS.trim (inputText (setInputText " hi " initialState)) ≠ "") as N
    by (by vm_compute).
  split; [exact N|].
  destruct (sendMessage_request (setInputText " hi " initialState)
              (alone (setInputText " hi " initialState)) N)
    as (call & E & _).
  eexists. split; reflexivity.
Defined.

Lemma dropOneOf_whitespace (p rest : list N) :
  p ∈ JS.StrWhiteSpaceChar →
  JS.dropOneOf JS.StrWhiteSpaceChar (p ++ rest) = Some rest.
Proof.
  intros H. unfold JS.StrWhiteSpaceChar in H.
  repeat (apply elem_of_cons in H as [-> | H]; [reflexivity|]).
  by apply elem_of_nil in H.
Qed.

Lemma whitespace_nonempty (p : list N) : p ∈ JS.StrWhiteSpaceChar → p ≠ [].
Proof.
  intros H. unfold JS.StrWhiteSpaceChar in H.
  repeat (apply elem_of_cons in H as [-> | H]; [done|]).
  by apply elem_of_nil in H.
Qed.

Lemma dropLeading_whitespace (ps : list (list N)) (fuel : nat) :
  Forall (λ p, p ∈ JS.StrWhiteSpaceChar) ps →
  length ps ≤ fuel →
  JS.dropLeading JS.StrWhiteSpaceChar fuel (mjoin ps) = [].
Proof.
  intros F. revert fuel. induction F as [|p ps Hp _ IH]; intros fuel L.
  - by destruct fuel.
  - destruct fuel as [|fuel]; [cbn in L; lia|].
    cbn [mjoin list_join JS.dropLeading].
    change (mjoin (p :: ps)) with (p ++ mjoin ps).
    rewrite dropOneOf_whitespace by done. apply IH. cbn in L. lia.
Qed.

Lemma length_whitespace (ps : list (list N)) :
  Forall (λ p, p ∈ JS.StrWhiteSpaceChar) ps →
  length ps ≤ length (mjoin ps).
Proof.
  induction 1 as [|p ps Hp _ IH]; [done|].
  change (mjoin (p :: ps)) with (p ++ mjoin ps). rewrite length_app.
  apply whitespace_nonempty in Hp. destruct p; [done|]. cbn. lia.
Qed.

Lemma trim_whitespaceOnly (t : string) : whitespaceOnly t → JS.trim t = "".
Proof.
  intros (ps & F & E). unfold JS.trim, JS.trimStart. rewrite E.
  rewrite dropLeading_whitespace; [done|done|by apply length_whitespace].
Qed.

(** X10.  An input made only of white space or line terminators (spaces,
    tabs, line breaks, no-break and full-width spaces and the like) is never
    sent, by Enter or by the button, and a row whose name is such a string is
    left out of the list string. *)
Theorem whitespace_is_blank (t : string) (w : World) (ing : Ingredient)
  (l1 l2 : list Ingredient) :
  whitespaceOnly t →
  (inputText (cells w) = t →
   dispatch (KeyDown "Enter" false) w = (inr tt, w)
   ∧ dispatch ClickSend w = (inr tt, w))
  ∧ (name ing = t →
     ingredientsList (l1 ++ ing :: l2) = ingredientsList (l1 ++ l2)).
Proof.
  intros B%trim_whitespaceOnly. split.
  - intros E.
    assert (sendMessage (cells w) w = (inr tt, w)) as S
      by (apply sendMessage_blank; by rewrite E).
    split; [exact S|]. unfold dispatch, handle.
    by destruct (sendDisabled (cells w)).
  - intros E. unfold ingredientsList.
    rewrite !filter_app, filter_cons_False; [done|].
    unfold nonblank. rewrite E. tauto.
Qed.

Lemma whitespace_is_blank_witness :
  whitespaceOnly " 　"
  ∧ dispatch (KeyDown "Enter" false) (alone (setInputText " 　" initialState))
    = (inr tt, alone (setInputText " 　" initialState)).
Proof.
  assert (whitespaceOnly " 　") as B.
  { exists [ [ 32 ]; [ 227; 128; 128 ] ]%N. split; [|reflexivity].
    repeat constructor; apply (bool_decide_unpack _); by vm_compute. }
  split; [exact B|].
  exact (proj1 (proj1 (whitespace_is_blank " 　"
                         (alone (setInputText " 　" initialState))
                         {| id := ""; name := ""; amount := "" |} [] [] B)
                  eq_refl)).
Defined.

(** *** Settling *)

(** X11.  Whatever the outcome, the rest of a handler completes without
    letting an exception out, lowers the loading flag and leaves the
    ingredient rows and the other outstanding calls alone.  A failure writes
    one line to the console and nothing to the transcript or the input; a
    success writes nothing to the console. *)
Theorem resume_always_settles (k : Continuation) (r : Outcome)
  (w : World) :
  (resume k r w).1 = inr tt
  ∧ isLoading (cells (resume k r w).2) = false
  ∧ ingredients (cells (resume k r w).2) = ingredients (cells w)
  ∧ network (resume k r w).2 = network w
  ∧ (failed r →
     chatHistory (cells (resume k r w).2) = chatHistory (cells w)
     ∧ inputText (cells (resume k r w).2) = inputText (cells w)
     ∧ console (resume k r w).2 = console w ++ [ (catchMessage k, raised r) ])
  ∧ (¬ failed r → console (resume k r w).2 = console w).
Proof.
  destruct (failed_dec r) as [F|(data & reply & -> & E)].
  - rewrite resume_failed by done. cbn. repeat split; done.
  - assert (¬ failed (Resolved data)) as NF by (cbn; by rewrite E).
    destruct k as [l|newHistory].
    + erewrite resume_generateRecipe_ok by done. cbn. repeat split; done.
    + erewrite resume_sendMessage_ok by done. cbn. repeat split; done.
Qed.

Lemma parts_read (ps l' : list JS.value) :
  mapM (λ part, JS.get part "text") ps = Some l' →
  Forall (λ part, part ≠ JS.Undefined ∧ part ≠ JS.Null) ps.
Proof.
  intros E%mapM_Some_1.
  induction E as [|part y ps l' Hp _ IH]; constructor; [|done].
  by destruct part.
Qed.

(** X12.  A body from which a reply is read has the shape the handlers
    walk: [candidates] is there, its first element has a [content], whose
    [parts] is an array without [null] entries; in particular it is none of
    the malformed bodies. *)
Theorem responseText_shape (data : JS.value) (recipe : string) :
  responseText data = Some recipe →
  ¬ deviates data
  ∧ ∃ candidates candidate content ps,
      JS.get data "candidates" = Some candidates
      ∧ JS.get0 candidates = Some candidate
      ∧ JS.get candidate "content" = Some content
      ∧ JS.get content "parts" = Some (JS.Array ps)
      ∧ Forall (λ part, part ≠ JS.Undefined ∧ part ≠ JS.Null) ps.
Proof.
  intros E. split.
  { intros D%deviates_fails. cbn in D. congruence. }
  unfold responseText, responseContent in E.
  destruct (JS.get data "candidates") as [candidates|] eqn:E1; [|done].
  cbn in E.
  destruct (JS.get0 candidates) as [candidate|] eqn:E2; [|done].
  cbn in E.
  destruct (JS.get candidate "content") as [content|] eqn:E3; [|done].
  cbn in E.
  destruct (JS.get content "parts") as [parts|] eqn:E4; [|done].
  cbn in E.
  destruct parts as [| | | | |ps|]; try done.
  exists candidates, candidate, content, ps. repeat split; try done.
  cbn in E.
  destruct (mapM (λ part, JS.get part "text") ps) as [l'|] eqn:E5; [|done].
  by eapply parts_read.
Qed.

Lemma responseText_shape_witness :
  responseText (sampleBody [ "A"; "B" ]) = Some ("A" +:+ LF +:+ "B")
  ∧ ¬ deviates (sampleBody [ "A"; "B" ]).
Proof.
  split; [reflexivity|].
  exact (proj1 (responseText_shape (sampleBody [ "A"; "B" ])
                  ("A" +:+ LF +:+ "B") eq_refl)).
Defined.

(** X13.  A reply that arrives after a reset is still applied: resetting
    empties the transcript but leaves the call outstanding, and when the call
    resolves the transcript becomes the one its handler closed over, whatever
    was written in between. *)
Theorem reply_after_reset (w : World) (n : nat) (call : Call)
  (data : JS.value) (reply : string) :
  network w !! n = Some call →
  responseText data = Some reply →
  chatHistory (cells (next w ClickReset)) = []
  ∧ network (next w ClickReset) = network w
  ∧ chatHistory
      (cells (next (next w ClickReset) (Settle n (Resolved data))))
    = match awaiting call with
      | generateRecipe_resume l =>
          [ {| role := user; text := "食材：" +:+ l;
               isIngredientList := Some true |};
            {| role := assistant; text := reply; isIngredientList := None |} ]
      | sendMessage_resume newHistory =>
          newHistory
            ++ [ {| role := assistant; text := reply;
                    isIngredientList := None |} ]
      end.
Proof.
  intros L E. split; [done|]. split; [done|].
  unfold next at 1, dispatch, handle, settle.
  change (network (next w ClickReset)) with (network w). rewrite L.
  destruct (awaiting call) as [l|newHistory].
  - by erewrite resume_generateRecipe_ok.
  - by erewrite resume_sendMessage_ok.
Qed.

Lemma reply_after_reset_witness :
  network (run [ ChangeInput "hi"; KeyDown "Enter" false ] mount) !! 0
  = Some {| contents := [ {| content_role := Some user; parts := [ "hi" ] |} ];
            awaiting :=
              sendMessage_resume
                [ {| role := user; text := "hi"; isIngredientList := None |} ] |}
  ∧ responseText (sampleBody [ "ok" ]) = Some "ok"
  ∧ chatHistory
      (cells
         (run [ ChangeInput "hi"; KeyDown "Enter" false; ClickReset;
                Settle 0 (Resolved (sampleBody [ "ok" ])) ] mount))
    = [ {| role := user; text := "hi"; isIngredientList := None |};
        {| role := assistant; text := "ok"; isIngredientList := None |} ].
Proof.
  split; [reflexivity|]. split; [reflexivity|].
  exact (proj2 (proj2 (reply_after_reset
                         (run [ ChangeInput "hi"; KeyDown "Enter" false ] mount)
                         0 _ (sampleBody [ "ok" ]) "ok" eq_refl eq_refl))).
Defined.

(** *** What holds after any sequence of events *)

Lemma resume_frame (k : Continuation) (r : Outcome) (w : World) :
  isLoading (cells (resume k r w).2) = false
  ∧ ingredients (cells (resume k r w).2) = ingredients (cells w)
  ∧ network (resume k r w).2 = network w.
Proof.
  destruct (failed_dec r) as [F|(data & reply & -> & E)].
  - by rewrite resume_failed.
  - destruct k; [by erewrite resume_generateRecipe_ok
                |by erewrite resume_sendMessage_ok].
Qed.

Lemma generateRecipe_cases (s : State) (w : World) :
  generateRecipe s w = (inr tt, w)
  ∨ ∃ call,
      generateRecipe s w
      = (inr tt,
         {| cells := setIsLoading true (cells w);
            network := network w ++ [ call ];
            console := console w |})
      ∧ coherent call
      ∧ ∃ l, awaiting call = generateRecipe_resume l.
Proof.
  destruct (decide (ingredients s = [])) as [E|E].
  - left. by apply generateRecipe_empty.
  - right. rewrite generateRecipe_posts by done.
    eexists. split; [done|]. split; [done|]. by eexists.
Qed.

Lemma sendMessage_cases (s : State) (w : World) :
  sendMessage s w = (inr tt, w)
  ∨ ∃ call,
      sendMessage s w
      = (inr tt,
         {| cells := setIsLoading true (cells w);
            network := network w ++ [ call ];
            console := console w |})
      ∧ coherent call
      ∧ awaiting call
        = sendMessage_resume
            (chatHistory s
               ++ [ {| role := user; text := inputText s;
                       isIngredientList := None |} ]).
Proof.
  destruct (decide (JS.trim (inputText s) = "")) as [E|E].
  - left. by apply sendMessage_blank.
  - right. rewrite sendMessage_posts by done.
    eexists. split; [done|]. by split.
Qed.

Lemma snoc_longer {A} (l l' : list A) (x : A) :
  length l' ≤ length l → l' ≠ l ++ [ x ].
Proof. intros L E. rewrite E, length_app in L. cbn in L. lia. Qed.

(** [sends] holds of exactly the events that post a follow-up. *)
Lemma sends_iff_posts (w : World) (e : Event) :
  sends (cells w) e
  ↔ ∃ call newHistory,
      network (next w e) = network w ++ [ call ]
      ∧ awaiting call = sendMessage_resume newHistory.
Proof.
  split.
  - destruct e as [now|i field value|i| | |value|key shiftKey| |n r];
      try done; cbn [sends].
    + intros (-> & -> & N).
      change (next w (KeyDown "Enter" false)) with (sendMessage (cells w) w).2.
      rewrite sendMessage_posts by done. eauto.
    + intros (D & N). unfold next, dispatch, handle. rewrite D.
      rewrite sendMessage_posts by done. eauto.
  - intros (call & newHistory & E & A). unfold next, dispatch in E.
    destruct e as [now|i field value|i| | |value|key shiftKey| |n r];
      cbn [handle] in E;
      try (by apply snoc_longer in E).
    + destruct (generateDisabled (cells w)); [by apply snoc_longer in E|].
      destruct (generateRecipe_cases (cells w) w)
        as [G|(call' & G & _ & l & A')]; rewrite G in E.
      * by apply snoc_longer in E.
      * cbn in E. apply app_inv_head in E. congruence.
    + destruct (bool_decide (key = "Enter") && negb shiftKey) eqn:K;
        [|by apply snoc_longer in E].
      apply andb_true_iff in K as [K1%bool_decide_eq_true K2%negb_true_iff].
      cbn [sends]. split; [done|]. split; [done|]. intros B.
      rewrite sendMessage_blank in E by done. by apply snoc_longer in E.
    + destruct (sendDisabled (cells w)) eqn:D; [by apply snoc_longer in E|].
      cbn [sends]. split; [done|]. intros B.
      rewrite sendMessage_blank in E by done. by apply snoc_longer in E.
    + unfold settle in E.
      destruct (network w !! n) as [call'|]; [|by apply snoc_longer in E].
      rewrite (proj2 (proj2 (resume_frame _ _ _))) in E. cbn in E.
      apply snoc_longer in E; [done|]. apply sublist_length, sublist_delete.
Qed.

(** The effect of an event, handler by handler. *)
Lemma next_cases (w : World) (e : Event) :
  (∃ f, next w e = (write f w).2
        ∧ match e with
          | ClickAdd now => f = addIngredient now
          | ChangeIngredient i field value => f = updateIngredient i field value
          | ClickRemove i => f = removeIngredient i
          | ClickReset => f = resetChat
          | ChangeInput value => f = setInputText value
          | _ => False
          end)
  ∨ (¬ editing e ∧ e ≠ ClickReset ∧ (∀ value, e ≠ ChangeInput value)
     ∧ (next w e = w
        ∨ (∃ call,
             next w e
             = {| cells := setIsLoading true (cells w);
                  network := network w ++ [ call ];
                  console := console w |}
             ∧ coherent call
             ∧ ((∃ l, awaiting call = generateRecipe_resume l)
                ∨ awaiting call
                  = sendMessage_resume
                      (chatHistory (cells w)
                         ++ [ {| role := user; text := inputText (cells w);
                                 isIngredientList := None |} ])))
        ∨ (∃ n r call,
             e = Settle n r ∧ network w !! n = Some call
             ∧ next w e
               = (resume (awaiting call) r
                    (withNetwork (delete n (network w)) w)).2))).
Proof.
  unfold next, dispatch.
  destruct e as [now|i field value|i| | |value|key shiftKey| |n r];
    cbn [handle]; try (left; eexists; split; [reflexivity|done]);
    right; (split; [tauto|]); (split; [done|]); (split; [done|]).
  - destruct (generateDisabled (cells w)); [by left|].
    destruct (generateRecipe_cases (cells w) w) as [->|(call & -> & C & l)];
      [by left|right; left; eauto].
  - destruct (bool_decide (key = "Enter") && negb shiftKey); [|by left].
    destruct (sendMessage_cases (cells w) w) as [->|(call & -> & C & l)];
      [by left|right; left; eauto].
  - destruct (sendDisabled (cells w)); [by left|].
    destruct (sendMessage_cases (cells w) w) as [->|(call & -> & C & l)];
      [by left|right; left; eauto].
  - unfold settle. destruct (network w !! n) as [call|] eqn:L; [|by left].
    right; right. eauto 10.
Qed.

Lemma loading_outstanding_next (w : World) (e : Event) :
  (isLoading (cells w) = true → network w ≠ []) →
  isLoading (cells (next w e)) = true → network (next w e) ≠ [].
Proof.
  intros I.
  destruct (next_cases w e)
    as [(f & -> & F)
       |(_ & _ & _ & [->|[(call & -> & _)|(n & r & call & _ & _ & ->)]])].
  - destruct e; try done; subst f; cbn; try done.
  - done.
  - intros _. cbn. by destruct (network w).
  - intros L. by rewrite (proj1 (resume_frame _ _ _)) in L.
Qed.

Lemma loading_outstanding_run (events : list Event) (w : World) :
  (isLoading (cells w) = true → network w ≠ []) →
  isLoading (cells (run events w)) = true → network (run events w) ≠ [].
Proof.
  revert w. induction events as [|e events IH]; intros w I; [done|].
  cbn. apply IH. by apply loading_outstanding_next.
Qed.

(** X14.  The page is never left waiting for nothing: after any sequence
    of events, if the submit button reads that a recipe is being generated
    then a call is outstanding, and both buttons are disabled. *)
Theorem generating_means_outstanding (events : list Event) :
  generateLabel (cells (run events mount)) = "レシピを生成中..." →
  network (run events mount) ≠ []
  ∧ generateDisabled (cells (run events mount)) = true
  ∧ sendDisabled (cells (run events mount)) = true.
Proof.
  unfold generateLabel, generateDisabled, sendDisabled.
  destruct (isLoading (cells (run events mount))) eqn:L; [|done].
  intros _. split; [|done]. by apply loading_outstanding_run.
Qed.

Lemma generating_means_outstanding_witness :
  generateLabel
    (cells (run [ ChangeInput "hi"; KeyDown "Enter" false ] mount))
  = "レシピを生成中..."
  ∧ network (run [ ChangeInput "hi"; KeyDown "Enter" false ] mount) ≠ [].
Proof.
  split; [reflexivity|].
  exact (proj1 (generating_means_outstanding
                  [ ChangeInput "hi"; KeyDown "Enter" false ] eq_refl)).
Defined.

(** X15.  No event lets an exception out of its handler: every click, key,
    change and settlement, whatever the response, completes normally. *)
Theorem dispatch_completes (e : Event) (w : World) :
  (dispatch e w).1 = inr tt.
Proof.
  unfold dispatch.
  destruct e as [now|i field value|i| | |value|key shiftKey| |n r];
    cbn [handle]; try done.
  - destruct (generateDisabled (cells w)); [done|].
    by destruct (generateRecipe_cases (cells w) w) as [->|(call & -> & _)].
  - destruct (bool_decide (key = "Enter") && negb shiftKey); [|done].
    by destruct (sendMessage_cases (cells w) w) as [->|(call & -> & _)].
  - destruct (sendDisabled (cells w)); [done|].
    by destruct (sendMessage_cases (cells w) w) as [->|(call & -> & _)].
  - unfold settle. destruct (network w !! n); [|done].
    apply resume_completes.
Qed.

Lemma Dialogue_positions (h : list ChatMessage) :
  Dialogue h →
  Nat.even (length h) = true
  ∧ ∀ k m, h !! k = Some m →
      role m = (if Nat.even k then user else assistant)
      ∧ (0 < k → isIngredientList m = None).
Proof.
  induction 1 as [|l u a D [IH1 IH2] Hu Ha Fa Fu]; [done|].
  split.
  - rewrite length_app. cbn [length].
    replace (length l + 2) with (S (S (length l))) by lia. done.
  - intros k m L. apply lookup_app_Some in L as [L|[G L]]; [by apply IH2|].
    destruct (k - length l) as [|[|j]] eqn:K; cbn in L; [| |done].
    + assert (k = length l) as -> by lia. injection L as <-.
      rewrite IH1. split; [done|]. intros P. apply Fu.
      intros ->. cbn in P. lia.
    + assert (k = S (length l)) as -> by lia. injection L as <-.
      rewrite Nat.even_succ, <- Nat.negb_even, IH1. done.
Qed.

Lemma dialogues_next (w : World) (e : Event) :
  dialogues w → dialogues (next w e).
Proof.
  intros [D P].
  destruct (next_cases w e)
    as [(f & -> & F)
       |(_ & _ & _ & [->|[(call & -> & _ & A)|(n & r & call & _ & L & ->)]])].
  - split; [|done].
    destruct e; try done; subst f; cbn; try done. constructor.
  - done.
  - split; [done|]. cbn. apply Forall_app. split; [done|].
    constructor; [|done]. unfold pendingDialogue.
    destruct A as [[l ->]| ->]; [done|]. eauto 10.
  - assert (pendingDialogue call) as Pc by (eapply Forall_lookup in P; eauto).
    assert (Forall pendingDialogue (delete n (network w))) as Pd
      by by apply Forall_delete.
    destruct (failed_dec r) as [F|(data & reply & -> & E)].
    + rewrite resume_failed by done. by split.
    + unfold pendingDialogue in Pc.
      destruct (awaiting call) as [l|newHistory].
      * erewrite resume_generateRecipe_ok by done. split; [|done]. cbn.
        by apply (Dialogue_turn [] _ _ Dialogue_nil).
      * erewrite resume_sendMessage_ok by done. split; [|done]. cbn.
        destruct Pc as (l & u & -> & Dl & Hu & Fu).
        rewrite <- app_assoc. by apply Dialogue_turn.
Qed.

Lemma dialogues_run (events : list Event) (w : World) :
  dialogues w → dialogues (run events w).
Proof.
  revert w. induction events as [|e events IH]; intros w I; [done|].
  cbn. by apply IH, dialogues_next.
Qed.

(** X16.  After any sequence of events the transcript is a sequence of
    turns: messages at even positions are the user's and those at odd
    positions the assistant's, labelled as an answer; only the first message
    can be flagged as the ingredient list, so every later user message is
    labelled as a question; and the transcript has an even number of
    messages. *)
Theorem transcript_is_turns (events : list Event) (k : nat) (m : ChatMessage) :
  chatHistory (cells (run events mount)) !! k = Some m →
  role m = (if Nat.even k then user else assistant)
  ∧ (Nat.even k = false → messageLabel m = "AI回答")
  ∧ (0 < k → isIngredientList m = None)
  ∧ (0 < k → Nat.even k = true → messageLabel m = "質問")
  ∧ Nat.even (length (chatHistory (cells (run events mount)))) = true.
Proof.
  intros L.
  assert (dialogues (run events mount)) as [D _]
    by (apply dialogues_run; split; [constructor|done]).
  apply Dialogue_positions in D as [E P].
  destruct (P k m L) as [R F]. unfold messageLabel.
  split; [done|]. split; [by intros K; rewrite R, K|].
  split; [done|]. split; [|done].
  intros G K. by rewrite R, K, (F G).
Qed.

Lemma transcript_is_turns_witness :
  chatHistory
    (cells
       (run [ ChangeIngredient "1" field_name "onion"; ClickGenerate;
              Settle 0 (Resolved (sampleBody [ "A"; "B" ]));
              ChangeInput "hi"; ClickSend;
              Settle 0 (Resolved (sampleBody [ "ok" ])) ] mount)) !! 2
  = Some {| role := user; text := "hi"; isIngredientList := None |}
  ∧ messageLabel {| role := user; text := "hi"; isIngredientList := None |}
    = "質問".
Proof.
  split; [reflexivity|].
  refine (proj1 (proj2 (proj2 (proj2 (transcript_is_turns
    [ ChangeIngredient "1" field_name "onion"; ClickGenerate;
      Settle 0 (Resolved (sampleBody [ "A"; "B" ]));
      ChangeInput "hi"; ClickSend;
      Settle 0 (Resolved (sampleBody [ "ok" ])) ] 2 _ eq_refl)))) _ eq_refl).
  lia.
Defined.

Lemma editing_next (w : World) (e : Event) :
  editing e →
  chatHistory (cells (next w e)) = chatHistory (cells w)
  ∧ isLoading (cells (next w e)) = isLoading (cells w)
  ∧ inputText (cells (next w e)) = inputText (cells w)
  ∧ network (next w e) = network w
  ∧ console (next w e) = console w.
Proof. by destruct e. Qed.

Lemma not_editing_next (w : World) (e : Event) :
  ¬ editing e → ingredients (cells (next w e)) = ingredients (cells w).
Proof.
  intros N.
  destruct (next_cases w e)
    as [(f & -> & F)
       |(_ & _ & _ & [->|[(call & -> & _ & A)|(n & r & call & _ & L & ->)]])].
  - destruct e; try done; subst f; try done; by destruct N.
  - done.
  - done.
  - by rewrite (proj1 (proj2 (resume_frame _ _ _))).
Qed.

(** X17.  The editor and the conversation do not touch each other's
    cells: a sequence of adds, removals and updates leaves the transcript,
    the loading flag, the input, the outstanding calls and the console as they
    were, and a sequence of any other events (submissions, follow-ups,
    resets, settlements with any outcome) leaves the ingredient rows as they
    were. *)
Theorem editor_and_session_are_separate (events : list Event) (w : World) :
  (Forall editing events →
   chatHistory (cells (run events w)) = chatHistory (cells w)
   ∧ isLoading (cells (run events w)) = isLoading (cells w)
   ∧ inputText (cells (run events w)) = inputText (cells w)
   ∧ network (run events w) = network w
   ∧ console (run events w) = console w)
  ∧ (Forall (λ e, ¬ editing e) events →
     ingredients (cells (run events w)) = ingredients (cells w)).
Proof.
  split.
  - intros F. revert w. induction F as [|e events He _ IH]; intros w; [done|].
    change (run (e :: events) w) with (run events (next w e)).
    destruct (IH (next w e)) as (-> & -> & -> & -> & ->).
    by apply editing_next.
  - intros F. revert w. induction F as [|e events He _ IH]; intros w; [done|].
    change (run (e :: events) w) with (run events (next w e)).
    rewrite IH. by apply not_editing_next.
Qed.

Lemma editor_and_session_are_separate_witness :
  Forall (λ e, ¬ editing e)
    [ ClickGenerate; Settle 0 Rejected; ChangeInput "hi"; ClickSend; ClickReset ]
  ∧ ingredients
      (cells
         (run [ ClickGenerate; Settle 0 Rejected; ChangeInput "hi"; ClickSend;
                ClickReset ]
            (alone (setIngredients sampleIngredients initialState))))
    = sampleIngredients.
Proof.
  assert (Forall (λ e, ¬ editing e)
            [ ClickGenerate; Settle 0 Rejected; ChangeInput "hi"; ClickSend;
              ClickReset ]) as F.
  { repeat constructor; cbn; tauto. }
  split; [exact F|].
  exact (proj2 (editor_and_session_are_separate _
                  (alone (setIngredients sampleIngredients initialState))) F).
Defined.

Lemma coherent_next (w : World) (e : Event) :
  Forall coherent (network w) → Forall coherent (network (next w e)).
Proof.
  intros C.
  destruct (next_cases w e)
    as [(f & -> & F)
       |(_ & _ & _ & [->|[(call & -> & Cc & _)|(n & r & call & _ & L & ->)]])].
  - done.
  - done.
  - cbn. apply Forall_app. split; [done|]. by constructor.
  - rewrite (proj2 (proj2 (resume_frame _ _ _))). cbn.
    by apply Forall_delete.
Qed.

Lemma coherent_run (events : list Event) (w : World) :
  Forall coherent (network w) → Forall coherent (network (run events w)).
Proof.
  revert w. induction events as [|e events IH]; intros w C; [done|].
  cbn. by apply IH, coherent_next.
Qed.

(** X18.  What a successful follow-up shows is what it sent: after any
    sequence of events, the request of an outstanding follow-up carries, one
    entry per message, exactly the messages its handler closed over, and when
    it resolves the transcript becomes those messages followed by the reply. *)
Theorem follow_up_shows_what_it_sent (events : list Event) (n : nat)
  (call : Call) (newHistory : list ChatMessage) (data : JS.value)
  (reply : string) :
  network (run events mount) !! n = Some call →
  awaiting call = sendMessage_resume newHistory →
  responseText data = Some reply →
  contents call
  = (λ msg, {| content_role := Some (role msg); parts := [ text msg ] |})
      <$> newHistory
  ∧ chatHistory
      (cells (next (run events mount) (Settle n (Resolved data))))
    = newHistory
        ++ [ {| role := assistant; text := reply; isIngredientList := None |} ].
Proof.
  intros L A E.
  assert (Forall coherent (network (run events mount))) as C
    by by apply coherent_run.
  eapply Forall_lookup in C; [|exact L]. unfold coherent in C.
  rewrite A in C. split; [done|].
  unfold next, dispatch, handle, settle. rewrite L, A.
  by erewrite resume_sendMessage_ok.
Qed.

Lemma follow_up_shows_what_it_sent_witness :
  network (run [ ChangeInput "hi"; KeyDown "Enter" false ] mount) !! 0
  = Some {| contents := [ {| content_role := Some user; parts := [ "hi" ] |} ];
            awaiting :=
              sendMessage_resume
                [ {| role := user; text := "hi"; isIngredientList := None |} ] |}
  ∧ responseText (sampleBody [ "ok" ]) = Some "ok"
  ∧ chatHistory
      (cells
         (next (run [ ChangeInput "hi"; KeyDown "Enter" false ] mount)
            (Settle 0 (Resolved (sampleBody [ "ok" ])))))
    = [ {| role := user; text := "hi"; isIngredientList := None |};
        {| role := assistant; text := "ok"; isIngredientList := None |} ].
Proof.
  split; [reflexivity|]. split; [reflexivity|].
  exact (proj2 (follow_up_shows_what_it_sent
                  [ ChangeInput "hi"; KeyDown "Enter" false ] 0 _ _
                  (sampleBody [ "ok" ]) "ok" eq_refl eq_refl eq_refl)).
Defined.

(** *** Parts without text *)

Lemma texts_read (ps : list JS.value) (texts : list (option string)) :
  Forall2 (λ part t,
             match t with
             | Some text => JS.get part "text" = Some (JS.Str text)
             | None => JS.get part "text" = Some JS.Undefined
                       ∨ JS.get part "text" = Some JS.Null
             end) ps texts →
  ∃ vs, mapM (λ part, JS.get part "text") ps = Some vs
        ∧ mapM JS.joinElement vs = Some (default "" <$> texts).
Proof.
  induction 1 as [|part t ps texts H _ (vs & E1 & E2)]; [by exists []|].
  destruct t as [text|].
  - exists (JS.Str text :: vs). cbn. by rewrite H, E1, E2.
  - destruct H as [H|H].
    + exists (JS.Undefined :: vs). cbn. by rewrite H, E1, E2.
    + exists (JS.Null :: vs). cbn. by rewrite H, E1, E2.
Qed.

(** X19.  A part that has no [text], or a [null] one, does not make the
    reply fail: it counts as an empty segment, and the reply is the segments
    in order separated by newlines. *)
Theorem responseText_missing_text (data content : JS.value)
  (ps : list JS.value) (texts : list (option string)) :
  responseContent data = Some content →
  JS.get content "parts" = Some (JS.Array ps) →
  Forall2 (λ part t,
             match t with
             | Some text => JS.get part "text" = Some (JS.Str text)
             | None => JS.get part "text" = Some JS.Undefined
                       ∨ JS.get part "text" = Some JS.Null
             end) ps texts →
  responseText data = Some (JS.join LF (default "" <$> texts)).
Proof.
  intros Ec Ep F. destruct (texts_read _ _ F) as (vs & E1 & E2).
  unfold responseText. rewrite Ec. cbn. rewrite Ep. cbn.
  rewrite E1. cbn. by rewrite E2.
Qed.

Lemma responseText_missing_text_witness :
  responseText
    (JS.Object
       [ ("candidates",
          JS.Array
            [ JS.Object
                [ ("content",
                   JS.Object
                     [ ("parts",
                        JS.Array
                          [ JS.Object [ ("text", JS.Str "A") ];
                            JS.Object [];
                            JS.Object [ ("text", JS.Str "B") ] ]) ]) ] ]) ])
  = Some ("A" +:+ LF +:+ LF +:+ "B").
Proof.
  apply (responseText_missing_text _
           (JS.Object
              [ ("parts",
                 JS.Array
                   [ JS.Object [ ("text", JS.Str "A") ];
                     JS.Object [];
                     JS.Object [ ("text", JS.Str "B") ] ]) ])
           [ JS.Object [ ("text", JS.Str "A") ]; JS.Object [];
             JS.Object [ ("text", JS.Str "B") ] ]
           [ Some "A"; None; Some "B" ]); [reflexivity|reflexivity|].
  repeat constructor.
Defined.
